(** * ADLVisualizer: the two data-export scripts

    A shallow embedding of [scripts/data/export_flow_data.py] (module [Flow])
    and [scripts/data/export_adl_events_json.py] (module [Events]), followed
    by the properties proved about them.

    Conventions of the embedding.
    - A Python [int] is a [Z]; a length or a count of events is a [nat].
    - A Python [float] is a [pyfloat]: a finite value is an exact rational,
      next to the two infinities and NaN (the marker pandas uses for a
      missing cell).  Rounding of binary64 arithmetic is not modelled:
      sums, products and quotients of finite values are exact.
    - A [dict] (and a [defaultdict]) is an insertion-ordered association
      list, since iteration order and the stable sorts built on it are
      observable in the emitted documents.  A row that is accessed by
      column name is a finite map from column names to cells.
    - A raised exception is the [Raise] case of [res].
    - Loading the table, printing and writing the JSON file are left out:
      [Flow.export_flow_data] maps the loaded table to [output_data], and
      [Events.events] maps it to the sorted list [events]. *)

From Stdlib Require Import ZArith QArith Qabs Qround Lia Lqa String Ascii List Bool.
From Stdlib Require Import Sorted Permutation DecimalString.
From stdpp Require Import base gmap strings list sets sorting.

Open Scope string_scope.
Open Scope Z_scope.

(** ** Python values *)

Module Py.

Inductive exn := ValueError | TypeError | OverflowError.

Inductive res (A : Type) : Type :=
| Ok (a : A)
| Raise (e : exn).
Arguments Ok {A} a.
Arguments Raise {A} e.

Definition bind {A B} (m : res A) (k : A → res B) : res B :=
  match m with
  | Ok a => k a
  | Raise e => Raise e
  end.

Inductive pyfloat := Fin (q : Q) | PInf | NInf | NaN.

(** [x + y] on floats. *)
Definition fadd (x y : pyfloat) : pyfloat :=
  match x, y with
  | NaN, _ | _, NaN => NaN
  | PInf, NInf | NInf, PInf => NaN
  | PInf, _ | _, PInf => PInf
  | NInf, _ | _, NInf => NInf
  | Fin a, Fin b => Fin (a + b)
  end.

(** [abs(x)]. *)
Definition fabs (x : pyfloat) : pyfloat :=
  match x with
  | Fin q => Fin (Qabs q)
  | PInf | NInf => PInf
  | NaN => NaN
  end.

(** [x < y]; every comparison with NaN is false. *)
Definition fltb (x y : pyfloat) : bool :=
  match x, y with
  | NaN, _ | _, NaN => false
  | Fin a, Fin b => negb (Qle_bool b a)
  | NInf, NInf | PInf, _ | _, NInf => false
  | NInf, _ | _, PInf => true
  end.

(** [x <= y]. *)
Definition fleb (x y : pyfloat) : bool :=
  match x, y with
  | NaN, _ | _, NaN => false
  | Fin a, Fin b => Qle_bool a b
  | NInf, _ | _, PInf => true
  | PInf, _ | _, NInf => false
  end.

(** [pd.isna(x)] on a float. *)
Definition isna (x : pyfloat) : bool :=
  match x with NaN => true | _ => false end.

(** The integer [n] seen as a float. *)
Definition of_int (n : Z) : pyfloat := Fin (inject_Z n).

(** [str(n)] for an [int]. *)
Definition str_int (n : Z) : string := NilZero.string_of_int (Z.to_int n).

(** [sorted(l, key=...)]: a stable sort, written as an insertion sort.
    [lt y x] says that [y] sorts strictly before [x]; an element is put in
    front of the first one that does not sort strictly before it, so equal
    elements keep the order they had in [l].  With [reverse=True] Python
    keeps that order too, and [lt] is the reversed comparison. *)
Fixpoint insert_by {A} (lt : A → A → bool) (x : A) (l : list A) : list A :=
  match l with
  | [] => [x]
  | y :: l' => if lt y x then y :: insert_by lt x l' else x :: y :: l'
  end.

Definition sorted_by {A} (lt : A → A → bool) (l : list A) : list A :=
  foldr (insert_by lt) [] l.

(** [sum(l)] over floats: a left fold that starts from [0]. *)
Definition fsum (l : list pyfloat) : pyfloat :=
  fold_left fadd l (Fin 0).

(** Equality of floats as values: finite ones are compared as rationals. *)
Definition feq (x y : pyfloat) : Prop :=
  match x, y with
  | Fin a, Fin b => (a == b)%Q
  | PInf, PInf | NInf, NInf | NaN, NaN => True
  | _, _ => False
  end.

(** [0 <= x]: a finite value that is not negative, or [+inf]. *)
Definition nonneg (x : pyfloat) : Prop := fleb (Fin 0) x = true.

End Py.
Import Py.

Infix "≈" := feq (at level 70, no associativity).

#[global] Instance res_ret : MRet res := @Ok.
#[global] Instance res_bind : MBind res := λ A B k m, bind m k.

(** ** Insertion-ordered dictionaries *)

Module ODict.
Section odict.
Context {K V : Type} `{EqDecision K}.

(** [d.get(k)]. *)
Fixpoint get (d : list (K * V)) (k : K) : option V :=
  match d with
  | [] => None
  | (k', v) :: d' => if decide (k = k') then Some v else get d' k
  end.

(** [d[k] = f(d[k])] on a [defaultdict] whose factory yields [dflt]:
    an existing entry is updated in place, a new key goes last. *)
Fixpoint upd (f : V → V) (dflt : V) (k : K) (d : list (K * V)) : list (K * V) :=
  match d with
  | [] => [(k, f dflt)]
  | (k', v) :: d' =>
      if decide (k = k') then (k', f v) :: d' else (k', v) :: upd f dflt k d'
  end.

Definition keys (d : list (K * V)) : list K := fst <$> d.
Definition values (d : list (K * V)) : list V := snd <$> d.
End odict.
End ODict.

Abbreviation odict K V := (list (K * V)).

(** ** Calendar arithmetic behind [datetime]

    Days are counted from 1970-01-01 in the proleptic Gregorian calendar,
    as [datetime] does. *)

Module Calendar.

(** The number of days from 1970-01-01 to the civil date [y]-[m]-[d]. *)
Definition days_from_civil (y m d : Z) : Z :=
  let y' := if m <=? 2 then y - 1 else y in
  let era := y' / 400 in
  let yoe := y' - era * 400 in
  let mp := if 2 <? m then m - 3 else m + 9 in
  let doy := (153 * mp + 2) / 5 + d - 1 in
  let doe := yoe * 365 + yoe / 4 - yoe / 100 + doy in
  era * 146097 + doe - 719468.

(** The civil date (year, month, day) of a day count. *)
Definition civil_from_days (days : Z) : Z * Z * Z :=
  let z := days + 719468 in
  let era := z / 146097 in
  let doe := z - era * 146097 in
  let yoe := (doe - doe / 1460 + doe / 36524 - doe / 146096) / 365 in
  let doy := doe - (365 * yoe + yoe / 4 - yoe / 100) in
  let mp := (5 * doy + 2) / 153 in
  let d := doy - (153 * mp + 2) / 5 + 1 in
  let m := if mp <? 10 then mp + 3 else mp - 9 in
  let y := yoe + era * 400 in
  (if m <=? 2 then y + 1 else y, m, d).

Definition is_leap (y : Z) : bool :=
  (y mod 4 =? 0) && (negb (y mod 100 =? 0) || (y mod 400 =? 0)).

Definition days_in_month (y m : Z) : Z :=
  if m =? 2 then (if is_leap y then 29 else 28)
  else if (m =? 4) || (m =? 6) || (m =? 9) || (m =? 11) then 30
  else 31.

(** A non-negative number printed in at least [w] decimal digits. *)
Definition zero_pad (w : nat) (n : Z) : string :=
  let s := str_int n in
  String.concat EmptyString (repeat "0" (w - String.length s)) ++ s.

(** The first and last second [datetime] can represent:
    0001-01-01T00:00:00 and 9999-12-31T23:59:59. *)
Definition min_second : Z := -62135596800.
Definition max_second : Z := 253402300799.

(** The date and time of day of a second, as [isoformat] prints them
    without an offset. *)
Definition isoformat_seconds (secs : Z) : string :=
  let '(y, m, d) := civil_from_days (secs / 86400) in
  let sod := secs mod 86400 in
  zero_pad 4 y ++ "-" ++ zero_pad 2 m ++ "-" ++ zero_pad 2 d ++ "T"
  ++ zero_pad 2 (sod / 3600) ++ ":" ++ zero_pad 2 (sod mod 3600 / 60)
  ++ ":" ++ zero_pad 2 (sod mod 60).

(** [datetime.fromtimestamp(secs, tz=timezone.utc).isoformat()] for a whole
    number of seconds.  Outside of the years 1 to 9999 CPython raises (a
    [ValueError], or an [OverflowError] or [OSError] further out); the kind
    of exception is not distinguished here. *)
Definition utc_isoformat (secs : Z) : res string :=
  if (secs <? min_second) || (max_second <? secs) then Raise ValueError
  else Ok (isoformat_seconds secs ++ "+00:00").

End Calendar.

(** ** String operations *)

Module Str.

(** [needle in s]. *)
Fixpoint contains (needle s : string) : bool :=
  String.prefix needle s ||
  match s with
  | EmptyString => false
  | String _ s' => contains needle s'
  end.

(** [s.replace(old, new)] for a non-empty [old]: occurrences are replaced
    from left to right and do not overlap.  [skip] counts the characters of
    an occurrence that still have to be passed over. *)
Fixpoint replace_from (old new : string) (skip : nat) (s : string) : string :=
  match s with
  | EmptyString => EmptyString
  | String c s' =>
      match skip with
      | S k => replace_from old new k s'
      | O =>
          if String.prefix old s
          then (new ++ replace_from old new (String.length old - 1) s')%string
          else String c (replace_from old new O s')
      end
  end.

Definition replace (old new s : string) : string := replace_from old new O s.

(** [s.lower()] on ASCII letters. *)
Definition lower_ascii (c : ascii) : ascii :=
  let n := nat_of_ascii c in
  if (65 <=? n)%nat && (n <=? 90)%nat then ascii_of_nat (n + 32) else c.

Fixpoint lower (s : string) : string :=
  match s with
  | EmptyString => EmptyString
  | String c s' => String (lower_ascii c) (lower s')
  end.

End Str.

(** ** [export_flow_data.py] *)

Module Flow.

(** One row of the table, as the loop reads it: [int(row['time'])],
    [str(row['liquidated_user'])], [str(row['user'])], [str(row['coin'])]
    and [float(row['adl_notional'])]. *)
Record Row := {
  time : Z;
  liquidated_user : string;
  user : string;
  coin : string;
  adl_notional : pyfloat
}.

(** The value held by [min_timestamp] and [max_timestamp]: the float
    infinity they start from, or an [int] taken from a row. *)
Inductive bound := PosInf | NegInf | At (z : Z).

Definition blt (a b : bound) : bool :=
  match a, b with
  | At x, At y => x <? y
  | NegInf, NegInf | PosInf, _ | _, NegInf => false
  | NegInf, _ | _, PosInf => true
  end.

(** [min(a, b)] and [max(a, b)]: the first argument wins a tie. *)
Definition py_min (a b : bound) : bound := if blt b a then b else a.
Definition py_max (a b : bound) : bound := if blt a b then b else a.

(** [int(b)]. *)
Definition int_of_bound (b : bound) : res Z :=
  match b with
  | At z => Ok z
  | PosInf | NegInf => Raise OverflowError
  end.

(** The accumulator of one second, as made by the [time_buckets] factory. *)
Module Bucket.
Record t := {
  assetFlows : odict string (odict string pyfloat);
  accountFlows : odict string (odict string pyfloat);
  liquidatedByAsset : odict string pyfloat;
  adldByAsset : odict string pyfloat;
  cumulativeNotional : pyfloat;
  cumulativeLiquidated : pyfloat;
  cumulativeAdld : pyfloat;
  eventCount : nat
}.

Definition fresh : t := {|
  assetFlows := [];
  accountFlows := [];
  liquidatedByAsset := [];
  adldByAsset := [];
  cumulativeNotional := Fin 0;
  cumulativeLiquidated := Fin 0;
  cumulativeAdld := Fin 0;
  eventCount := 0
|}.
End Bucket.

(** [d[k] += x] on a [defaultdict(float)]. *)
Definition add_to {K} `{EqDecision K} (k : K) (x : pyfloat)
    (d : odict K pyfloat) : odict K pyfloat :=
  ODict.upd (λ v, fadd v x) (Fin 0) k d.

(** [d[k1][k2] += x] on a [defaultdict] of [defaultdict(float)]. *)
Definition add_to2 {K} `{EqDecision K} (k1 k2 : K) (x : pyfloat)
    (d : odict K (odict K pyfloat)) : odict K (odict K pyfloat) :=
  ODict.upd (add_to k2 x) [] k1 d.

(** The local variables of [export_flow_data] that the loop updates. *)
Record state := {
  asset_flows : odict string (odict string pyfloat);
  asset_totals : odict string pyfloat;
  liquidated_by_asset : odict string pyfloat;
  adld_by_asset : odict string pyfloat;
  account_flows : odict string (odict string pyfloat);
  account_totals_in : odict string pyfloat;
  account_totals_out : odict string pyfloat;
  time_buckets : odict Z Bucket.t;
  min_timestamp : bound;
  max_timestamp : bound
}.

Definition init : state := {|
  asset_flows := [];
  asset_totals := [];
  liquidated_by_asset := [];
  adld_by_asset := [];
  account_flows := [];
  account_totals_in := [];
  account_totals_out := [];
  time_buckets := [];
  min_timestamp := PosInf;
  max_timestamp := NegInf
|}.

(** [abs(float(row['adl_notional']))]. *)
Definition notional_of (row : Row) : pyfloat := fabs (adl_notional row).

(** The test of line 78, [notional <= 0 or pd.isna(notional)]. *)
Definition skipped (row : Row) : bool :=
  fleb (notional_of row) (of_int 0) || isna (notional_of row).

(** [int(timestamp_ms / 1000) * 1000]: the float quotient, taken as exact,
    is truncated towards zero. *)
Definition bucket_key (timestamp_ms : Z) : Z := (timestamp_ms ÷ 1000) * 1000.

(** Lines 100 to 105: what one event does to the bucket of its second. *)
Definition bucket_add (asset liquidated target : string) (notional : pyfloat)
    (b : Bucket.t) : Bucket.t := {|
  Bucket.assetFlows := add_to2 asset asset notional (Bucket.assetFlows b);
  Bucket.accountFlows := add_to2 liquidated target notional (Bucket.accountFlows b);
  Bucket.liquidatedByAsset := add_to asset notional (Bucket.liquidatedByAsset b);
  Bucket.adldByAsset := add_to asset notional (Bucket.adldByAsset b);
  Bucket.cumulativeNotional := fadd (Bucket.cumulativeNotional b) notional;
  Bucket.cumulativeLiquidated := Bucket.cumulativeLiquidated b;
  Bucket.cumulativeAdld := Bucket.cumulativeAdld b;
  Bucket.eventCount := Bucket.eventCount b + 1
|}.

(** One iteration of the loop of lines 68 to 105. *)
Definition step (st : state) (row : Row) : state :=
  let timestamp_ms := time row in
  let min_ts := py_min (min_timestamp st) (At timestamp_ms) in
  let max_ts := py_max (max_timestamp st) (At timestamp_ms) in
  let liquidated := liquidated_user row in
  let target := user row in
  let asset := coin row in
  let notional := notional_of row in
  if skipped row then {|
    asset_flows := asset_flows st;
    asset_totals := asset_totals st;
    liquidated_by_asset := liquidated_by_asset st;
    adld_by_asset := adld_by_asset st;
    account_flows := account_flows st;
    account_totals_in := account_totals_in st;
    account_totals_out := account_totals_out st;
    time_buckets := time_buckets st;
    min_timestamp := min_ts;
    max_timestamp := max_ts
  |} else {|
    asset_flows := add_to2 asset asset notional (asset_flows st);
    asset_totals := add_to asset notional (asset_totals st);
    liquidated_by_asset := add_to asset notional (liquidated_by_asset st);
    adld_by_asset := add_to asset notional (adld_by_asset st);
    account_flows := add_to2 liquidated target notional (account_flows st);
    account_totals_in := add_to target notional (account_totals_in st);
    account_totals_out := add_to liquidated notional (account_totals_out st);
    time_buckets :=
      ODict.upd (bucket_add asset liquidated target notional) Bucket.fresh
        (bucket_key timestamp_ms) (time_buckets st);
    min_timestamp := min_ts;
    max_timestamp := max_ts
  |}.

(** The whole loop over [df.iterrows()]. *)
Definition accumulate (df : list Row) : state := fold_left step df init.

(** *** The emitted document *)

(** An entry of [assetFlows]. *)
Record AssetEdge := {
  ae_source : string;
  ae_target : string;
  ae_notional : pyfloat;
  ae_count : nat
}.

(** An entry of [accountFlows], and of a bucket's [assetFlows]. *)
Record Edge := {
  source : string;
  target : string;
  notional : pyfloat
}.

(** An entry of [assetStats]. *)
Record AssetStat := {
  asset : string;
  totalNotional : pyfloat;
  as_eventCount : nat
}.

(** An entry of [timeBuckets]. *)
Module Summary.
Record t := {
  time : Z;
  timeISO : string;
  cumulativeNotional : pyfloat;
  cumulativeLiquidated : pyfloat;
  cumulativeAdld : pyfloat;
  notionalInBucket : pyfloat;
  eventCount : nat;
  liquidatedByAsset : odict string pyfloat;
  adldByAsset : odict string pyfloat;
  assetFlows : list Edge
}.
End Summary.

Record TimeRange := {
  start : Z;
  end_ : Z;
  durationMinutes : pyfloat
}.

Module Metadata.
Record t := {
  eventCount : nat;
  timeRange : TimeRange;
  totalNotionalUsd : pyfloat;
  totalLiquidatedNotional : pyfloat;
  totalAdldNotional : pyfloat;
  uniqueAssets : nat;
  uniqueAccounts : nat
}.
End Metadata.

Record TopAccounts := {
  liquidated : list (string * pyfloat);
  counterparties : list (string * pyfloat)
}.

(** [output_data].  Its [assetLiquidationStats] entry is left out: it
    lists the assets in the iteration order of a [set] of strings, which
    Python does not fix. *)
Record Document := {
  metadata : Metadata.t;
  assetFlows : list AssetEdge;
  assetStats : list AssetStat;
  accountFlows : list Edge;
  topAccounts : TopAccounts;
  timeBuckets : list Summary.t
}.

(** [x > 0] for a float [x]. *)
Definition positive (x : pyfloat) : bool := fltb (of_int 0) x.

(** The [count] of line 116: the rows of [source] with a positive
    absolute notional. *)
Definition edge_count (df : list Row) (source : string) : nat :=
  length (List.filter
            (λ row, bool_decide (coin row = source) && positive (notional_of row)) df).

(** Lines 108 to 118. *)
Definition asset_flows_list (df : list Row)
    (flows : odict string (odict string pyfloat)) : list AssetEdge :=
  flat_map (λ '(source, targets),
    flat_map (λ '(target, notional),
      if positive notional
      then [ {| ae_source := source; ae_target := target;
                ae_notional := notional; ae_count := edge_count df source |} ]
      else []) targets) flows.

(** [sorted(totals.items(), key=lambda x: x[1], reverse=True)[:50]]. *)
Definition top50 (totals : odict string pyfloat) : list (string * pyfloat) :=
  take 50 (sorted_by (λ y x, fltb (snd x) (snd y)) totals).

Definition top_liquidated (st : state) : list (string * pyfloat) :=
  top50 (account_totals_out st).

Definition top_counterparties (st : state) : list (string * pyfloat) :=
  top50 (account_totals_in st).

(** Line 125. *)
Definition top_accounts_set (st : state) : gset string :=
  list_to_set (fst <$> (top_liquidated st ++ top_counterparties st)%list).

(** Lines 126 to 138. *)
Definition account_flows_list (st : state) : list Edge :=
  let top := top_accounts_set st in
  flat_map (λ '(source, targets),
    if bool_decide (source ∈ top) then
      flat_map (λ '(target, notional),
        if bool_decide (target ∈ top) then
          if positive notional
          then [ {| source := source; target := target; notional := notional |} ]
          else []
        else []) targets
    else []) (account_flows st).

(** The [assetFlows] of one bucket, lines 160 to 169. *)
Definition bucket_edges (flows : odict string (odict string pyfloat)) : list Edge :=
  flat_map (λ '(source, targets),
    flat_map (λ '(target, notional),
      if positive notional
      then [ {| source := source; target := target; notional := notional |} ]
      else []) targets) flows.

(** [sorted(time_buckets.keys())]. *)
Definition sorted_keys (tb : odict Z Bucket.t) : list Z :=
  sorted_by Z.ltb (ODict.keys tb).

(** [time_buckets[k]]: the accumulator of the second [k], and the
    factory's fresh one for a key that is not there. *)
Definition bucket_at (tb : odict Z Bucket.t) (k : Z) : Bucket.t :=
  default Bucket.fresh (ODict.get tb k).

(** The loop of lines 145 to 171 over the sorted keys [ks], entered with
    the three running totals. *)
Fixpoint buckets_loop (tb : odict Z Bucket.t) (ks : list Z)
    (cumulative cumulative_liquidated cumulative_adld : pyfloat)
    : res (list Summary.t) :=
  match ks with
  | [] => Ok []
  | time_ms :: ks' =>
      let bucket := bucket_at tb time_ms in
      let cumulative := fadd cumulative (Bucket.cumulativeNotional bucket) in
      let cumulative_liquidated :=
        fadd cumulative_liquidated (fsum (ODict.values (Bucket.liquidatedByAsset bucket))) in
      let cumulative_adld :=
        fadd cumulative_adld (fsum (ODict.values (Bucket.adldByAsset bucket))) in
      iso ← Calendar.utc_isoformat (time_ms ÷ 1000);
      rest ← buckets_loop tb ks' cumulative cumulative_liquidated cumulative_adld;
      Ok ({| Summary.time := time_ms;
             Summary.timeISO := Str.replace "+00:00" "Z" iso;
             Summary.cumulativeNotional := cumulative;
             Summary.cumulativeLiquidated := cumulative_liquidated;
             Summary.cumulativeAdld := cumulative_adld;
             Summary.notionalInBucket := Bucket.cumulativeNotional bucket;
             Summary.eventCount := Bucket.eventCount bucket;
             Summary.liquidatedByAsset := Bucket.liquidatedByAsset bucket;
             Summary.adldByAsset := Bucket.adldByAsset bucket;
             Summary.assetFlows := bucket_edges (Bucket.assetFlows bucket) |}
          :: rest)
  end.

Definition time_buckets_list (st : state) : res (list Summary.t) :=
  buckets_loop (time_buckets st) (sorted_keys (time_buckets st))
    (Fin 0) (Fin 0) (Fin 0).

(** Lines 179 to 186; [eventCount] counts every row of the asset. *)
Definition asset_stats (df : list Row) (st : state) : list AssetStat :=
  (λ '(a, total),
     {| asset := a; totalNotional := total;
        as_eventCount :=
          length (List.filter (λ row, bool_decide (coin row = a)) df) |})
    <$> (sorted_by (λ y x, fltb (snd x) (snd y)) (asset_totals st)).

(** Line 176. *)
Definition unique_accounts (st : state) : nat :=
  size ((list_to_set (ODict.keys (account_totals_in st)) : gset string)
        ∪ list_to_set (ODict.keys (account_totals_out st))).

(** Lines 201 to 213. *)
Definition build_metadata (df : list Row) (st : state) : res Metadata.t :=
  s ← int_of_bound (min_timestamp st);
  e ← int_of_bound (max_timestamp st);
  Ok {| Metadata.eventCount := length df;
        Metadata.timeRange :=
          {| start := s; end_ := e;
             durationMinutes := Fin (inject_Z (e - s) / inject_Z (60 * 1000)) |};
        Metadata.totalNotionalUsd := fsum (ODict.values (asset_totals st));
        Metadata.totalLiquidatedNotional :=
          fsum (ODict.values (liquidated_by_asset st));
        Metadata.totalAdldNotional := fsum (ODict.values (adld_by_asset st));
        Metadata.uniqueAssets := length (asset_totals st);
        Metadata.uniqueAccounts := unique_accounts st |}.

(** [export_flow_data], from the loaded table to [output_data]. *)
Definition export_flow_data (df : list Row) : res Document :=
  let st := accumulate df in
  tbl ← time_buckets_list st;
  md ← build_metadata df st;
  Ok {| metadata := md;
        assetFlows := asset_flows_list df (asset_flows st);
        assetStats := asset_stats df st;
        accountFlows := account_flows_list st;
        topAccounts := {| liquidated := top_liquidated st;
                          counterparties := top_counterparties st |};
        timeBuckets := tbl |}.

(** *** Vocabulary of the statements about the pass *)

(** The rows that get past the test of line 78. *)
Definition passes (row : Row) : bool := negb (skipped row).
Definition kept (df : list Row) : list Row := List.filter passes df.

(** The value of [adl_notional] is zero, or missing. *)
Definition zero_or_missing (x : pyfloat) : Prop :=
  x = NaN ∨ ∃ q, x = Fin q ∧ (q == 0)%Q.

(** Two states hold the same aggregates: everything but the two extreme
    timestamps. *)
Definition same_aggregates (s1 s2 : state) : Prop :=
  asset_flows s1 = asset_flows s2
  ∧ asset_totals s1 = asset_totals s2
  ∧ liquidated_by_asset s1 = liquidated_by_asset s2
  ∧ adld_by_asset s1 = adld_by_asset s2
  ∧ account_flows s1 = account_flows s2
  ∧ account_totals_in s1 = account_totals_in s2
  ∧ account_totals_out s1 = account_totals_out s2
  ∧ time_buckets s1 = time_buckets s2.

(** [account_flows[liquidated][target]], if the pair was seen. *)
Definition flow_between (st : state) (liquidated target : string) : option pyfloat :=
  targets ← ODict.get (account_flows st) liquidated; ODict.get targets target.

(** The three rows of the end-to-end scenario. *)
Definition scenario : list Row := [
  {| time := 1000000000000; coin := "BTC"; user := "U1";
     liquidated_user := "U2"; adl_notional := Fin 100 |};
  {| time := 1000000000500; coin := "BTC"; user := "U1";
     liquidated_user := "U2"; adl_notional := Fin 50 |};
  {| time := 1000000001200; coin := "ETH"; user := "U3";
     liquidated_user := "U2"; adl_notional := Fin 200 |} ].

(** The scenario after a row of zero notional in an earlier second. *)
Definition scenario_with_zero : list Row :=
  {| time := 999999999000; coin := "BTC"; user := "U9";
     liquidated_user := "U8"; adl_notional := Fin 0 |} :: scenario.

(** Two accounts that are each liquidated against the other. *)
Definition mutual : list Row := [
  {| time := 1000000000000; coin := "BTC"; user := "U1";
     liquidated_user := "U2"; adl_notional := Fin 100 |};
  {| time := 1000000000500; coin := "ETH"; user := "U2";
     liquidated_user := "U1"; adl_notional := Fin 50 |} ].

(** *** The statistics left out of [Document] *)

(** An entry of [assetLiquidationStats]. *)
Record LiquidationStat := {
  ls_asset : string;
  liquidatedNotional : pyfloat;
  adldNotional : pyfloat;
  ls_totalNotional : pyfloat
}.

(** [d[k]] on a [defaultdict(float)]. *)
Definition lookup_total (d : odict string pyfloat) (k : string) : pyfloat :=
  default (Fin 0) (ODict.get d k).

(** Lines 189 to 198.  [iter l] is the order in which Python iterates over
    [set(l)], which the language leaves open. *)
Definition asset_liquidation_stats (iter : list string → list string)
    (st : state) : list LiquidationStat :=
  sorted_by (λ y x, fltb (ls_totalNotional x) (ls_totalNotional y))
    ((λ a,
        {| ls_asset := a;
           liquidatedNotional := lookup_total (liquidated_by_asset st) a;
           adldNotional := lookup_total (adld_by_asset st) a;
           ls_totalNotional :=
             fadd (lookup_total (liquidated_by_asset st) a)
                  (lookup_total (adld_by_asset st) a) |})
     <$> iter (ODict.keys (liquidated_by_asset st)
               ++ ODict.keys (adld_by_asset st))%list).

(** [account_flows[liquidated][target]], zero for a pair that was not
    seen. *)
Definition pair_total (st : state) (liquidated target : string) : pyfloat :=
  default (Fin 0) (flow_between st liquidated target).

(** A row of both keys. *)
Definition is_pair (liquidated target : string) (row : Row) : bool :=
  bool_decide (liquidated_user row = liquidated) && bool_decide (user row = target).

(** The rows of the second that starts at [k], and the rows of a key. *)
Definition in_second (k : Z) (row : Row) : bool :=
  bool_decide (bucket_key (time row) = k).
Definition has_key (key : Row → string) (a : string) (row : Row) : bool :=
  bool_decide (key row = a).

(** The years [datetime] can hold. *)
Definition in_datetime_range (secs : Z) : Prop :=
  Calendar.min_second ≤ secs ≤ Calendar.max_second.

(** The entry of a dictionary of flows that goes from an asset to itself:
    [flows[a] = {a: x}]. *)
Definition self_loop (kv : string * pyfloat) : string * odict string pyfloat :=
  (kv.1, [(kv.1, kv.2)]).

(** A table whose rows are all stopped by the filter. *)
Definition all_filtered : list Row := [
  {| time := 1000000000000; coin := "BTC"; user := "U1";
     liquidated_user := "U2"; adl_notional := Fin 0 |};
  {| time := 1000000000500; coin := "ETH"; user := "U3";
     liquidated_user := "U2"; adl_notional := NaN |} ].

End Flow.

(** ** Library functions used by [export_adl_events_json.py] *)

Module PyLib.

Definition is_digit (c : ascii) : bool :=
  let n := nat_of_ascii c in (48 <=? n)%nat && (n <=? 57)%nat.

Definition digit_val (c : ascii) : Z := Z.of_nat (nat_of_ascii c) - 48.

(** The value of a run of decimal digits; [None] unless [l] is a non-empty
    run of digits. *)
Definition digits (l : list ascii) : option Z :=
  match l with
  | [] => None
  | _ => if forallb is_digit l
         then Some (fold_left (λ acc c, acc * 10 + digit_val c) l 0)
         else None
  end.

(** The ASCII white space [float] skips: tab to carriage return, and the
    space. *)
Definition is_space (c : ascii) : bool :=
  let n := nat_of_ascii c in ((9 <=? n)%nat && (n <=? 13)%nat) || (n =? 32)%nat.

Fixpoint lstrip (l : list ascii) : list ascii :=
  match l with
  | c :: l' => if is_space c then lstrip l' else l
  | [] => []
  end.

(** [l] without the white space on either side. *)
Definition strip (l : list ascii) : list ascii :=
  rev (lstrip (rev (lstrip l))).

(** The part of [l] before the first character that satisfies [p], and
    the rest, starting with that character. *)
Fixpoint break_at (p : ascii → bool) (l : list ascii) : list ascii * list ascii :=
  match l with
  | [] => ([], [])
  | c :: l' =>
      if p c then ([], l)
      else let '(a, b) := break_at p l' in (c :: a, b)
  end.

Definition is_char (x : ascii) (c : ascii) : bool := bool_decide (c = x).

(** A leading sign: [true] stands for [-]. *)
Definition split_sign (l : list ascii) : bool * list ascii :=
  match l with
  | c :: l' =>
      if is_char "-" c then (true, l')
      else if is_char "+" c then (false, l')
      else (false, l)
  | [] => (false, [])
  end.

(** The digits of a mantissa, [int_part [. frac_part]] with at least one
    digit: its value and the number of fractional digits. *)
Definition mantissa (l : list ascii) : option (Z * nat) :=
  let '(ip, rest) := break_at (is_char ".") l in
  let fp := match rest with _ :: fp => fp | [] => [] end in
  match (ip ++ fp)%list with
  | [] => None
  | ds => match digits ds with
          | Some n => Some (n, length fp)
          | None => None
          end
  end.

(** The exponent part, without its [e]: [[sign] digits]. *)
Definition exponent (l : list ascii) : option Z :=
  let '(neg, ds) := split_sign l in
  match digits ds with
  | Some n => Some (if neg then - n else n)
  | None => None
  end.

(** [float(s)] for a string: [None] stands for the [ValueError].  Accepts
    white space around an optional sign followed by [inf], [infinity] or
    [nan] in any case, or by a decimal number with an optional fraction
    and exponent.  Underscores between digits are not modelled, and the
    value is the exact rational the numeral denotes. *)
Definition float_of_string (s : string) : option pyfloat :=
  let '(neg, body) := split_sign (strip (list_ascii_of_string s)) in
  let low := Str.lower (string_of_list_ascii body) in
  if bool_decide (low = "inf") || bool_decide (low = "infinity")
  then Some (if neg then NInf else PInf)
  else if bool_decide (low = "nan") then Some NaN
  else
    let '(m, e) := break_at (λ c, is_char "e" c || is_char "E" c) body in
    match mantissa m with
    | None => None
    | Some (n, fd) =>
        let ex := match e with
                  | [] => Some 0
                  | _ :: e' => exponent e'
                  end in
        match ex with
        | None => None
        | Some x =>
            let q := (inject_Z n * Qpower (inject_Z 10) (x - Z.of_nat fd))%Q in
            Some (Fin (if neg then - q else q)%Q)
        end
    end.

(** [int(q)] for a finite value: truncation towards zero. *)
Definition Qtrunc (q : Q) : Z := Qnum q ÷ Zpos (Qden q).

(** [int(x)] for a float. *)
Definition int_of_float (x : pyfloat) : res Z :=
  match x with
  | Fin q => Ok (Qtrunc q)
  | PInf | NInf => Raise OverflowError
  | NaN => Raise ValueError
  end.

(** [x * k] for a float [x] and a positive constant [k]. *)
Definition fscale (x : pyfloat) (k : Z) : pyfloat :=
  match x with
  | Fin q => Fin (q * inject_Z k)
  | other => other
  end.

(** A [datetime]; [tzoffset] is the UTC offset in microseconds of an aware
    value and [None] for a naive one. *)
Record datetime := {
  year : Z; month : Z; day : Z;
  hour : Z; minute : Z; second : Z; microsecond : Z;
  tzoffset : option Z
}.

(** [HH[:MM[:SS[.fff[fff]]]]] as (hour, minute, second, microsecond). *)
Definition parse_hh_mm_ss_ff (l : list ascii) : option (Z * Z * Z * Z) :=
  match l with
  | [h1; h2] =>
      h ← digits [h1; h2]; Some (h, 0, 0, 0)
  | [h1; h2; c1; m1; m2] =>
      h ← digits [h1; h2]; m ← digits [m1; m2];
      if is_char ":" c1 then Some (h, m, 0, 0) else None
  | h1 :: h2 :: c1 :: m1 :: m2 :: c2 :: s1 :: s2 :: frac =>
      h ← digits [h1; h2]; m ← digits [m1; m2]; s ← digits [s1; s2];
      if is_char ":" c1 && is_char ":" c2 then
        match frac with
        | [] => Some (h, m, s, 0)
        | [d; f1; f2; f3] =>
            f ← digits [f1; f2; f3];
            if is_char "." d then Some (h, m, s, f * 1000) else None
        | [d; f1; f2; f3; f4; f5; f6] =>
            f ← digits [f1; f2; f3; f4; f5; f6];
            if is_char "." d then Some (h, m, s, f) else None
        | _ => None
        end
      else None
  | _ => None
  end.

(** [datetime.fromisoformat(s)], after the grammar documented for Python 3.7
    to 3.10, [YYYY-MM-DD[*HH[:MM[:SS[.fff[fff]]]][+HH:MM[:SS[.ffffff]]]]],
    where [*] is any one character; [None] stands for the [ValueError].
    From Python 3.11 on the function reads more of ISO 8601 (a trailing [Z]
    among it); the script replaces every [Z] beforehand, as the earlier
    versions need. *)
Definition fromisoformat (s : string) : option datetime :=
  match list_ascii_of_string s with
  | y1 :: y2 :: y3 :: y4 :: c1 :: m1 :: m2 :: c2 :: d1 :: d2 :: rest =>
      y ← digits [y1; y2; y3; y4];
      m ← digits [m1; m2];
      d ← digits [d1; d2];
      '(h, mi, sec, us, tz) ←
        match rest with
        | [] => Some (0, 0, 0, 0, None)
        | _ :: tstr =>
            let '(tpart, tzpart) :=
              break_at (λ c, is_char "+" c || is_char "-" c) tstr in
            '(h, mi, sec, us) ← parse_hh_mm_ss_ff tpart;
            match tzpart with
            | [] => Some (h, mi, sec, us, None)
            | sign :: tzstr =>
                if bool_decide (length tzstr = 5%nat)
                   || bool_decide (length tzstr = 8%nat)
                   || bool_decide (length tzstr = 15%nat) then
                  '(zh, zm, zs, zus) ← parse_hh_mm_ss_ff tzstr;
                  let off := (zh * 3600 + zm * 60 + zs) * 1000000 + zus in
                  Some (h, mi, sec, us,
                        Some (if is_char "-" sign then - off else off))
                else None
            end
        end;
      if is_char "-" c1 && is_char "-" c2
         && (1 <=? y) && (y <=? 9999) && (1 <=? m) && (m <=? 12)
         && (1 <=? d) && (d <=? Calendar.days_in_month y m)
         && (h <=? 23) && (mi <=? 59) && (sec <=? 59)
         && match tz with
            | Some off => (-86400000000 <? off) && (off <? 86400000000)
            | None => true
            end
      then Some {| year := y; month := m; day := d; hour := h; minute := mi;
                   second := sec; microsecond := us; tzoffset := tz |}
      else None
  | _ => None
  end.

(** What the interpreter's host decides: the local time zone and the text
    of a float. *)
Record Host := {
  (** [dt.timestamp()] of a naive [datetime] whose fields, read as UTC, are
      the given number of seconds after 1970-01-01: whole seconds. *)
  local_epoch : Z → res Z;
  (** [datetime.fromtimestamp(ms / 1000).isoformat()]. *)
  local_isoformat : Z → res string;
  (** [str(x)] for a float. *)
  float_repr : pyfloat → string
}.

(** [dt.timestamp()], in microseconds. *)
Definition timestamp_us (host : Host) (dt : datetime) : res Z :=
  let wall :=
    Calendar.days_from_civil (year dt) (month dt) (day dt) * 86400
    + hour dt * 3600 + minute dt * 60 + second dt in
  match tzoffset dt with
  | Some off => Ok (wall * 1000000 + microsecond dt - off)
  | None => secs ← local_epoch host wall; Ok (secs * 1000000 + microsecond dt)
  end.

(** A host for the examples: its local zone is UTC, and it prints a float
    as Python prints the integral ones of up to sixteen digits. *)
Definition sample_host : Host := {|
  local_epoch := λ wall, Ok wall;
  local_isoformat := λ ms,
    if (ms / 1000 <? Calendar.min_second) || (Calendar.max_second <? ms / 1000)
    then Raise ValueError
    else Ok (Calendar.isoformat_seconds (ms / 1000)
             ++ (if ms mod 1000 =? 0 then EmptyString
                 else "." ++ Calendar.zero_pad 6 (ms mod 1000 * 1000)));
  float_repr := λ x,
    match x with
    | Fin q => str_int (Qtrunc q) ++ ".0"
    | PInf => "inf"
    | NInf => "-inf"
    | NaN => "nan"
    end
|}.

End PyLib.

(** ** [export_adl_events_json.py] *)

Module Events.
Import PyLib.

(** A cell of the table: pandas hands out an [int], a [float] (NaN for a
    missing value) or a [str]. *)
Inductive cell := CInt (z : Z) | CFloat (f : pyfloat) | CStr (s : string).

(** [pd.notna(c)]. *)
Definition notna (c : cell) : bool :=
  match c with
  | CFloat NaN => false
  | _ => true
  end.

(** [float(c)]. *)
Definition to_float (c : cell) : res pyfloat :=
  match c with
  | CInt z => Ok (of_int z)
  | CFloat f => Ok f
  | CStr s => match float_of_string s with
              | Some f => Ok f
              | None => Raise ValueError
              end
  end.

(** [1e12], the threshold between seconds and milliseconds. *)
Definition threshold : Z := 1000000000000.

(** A row of the table: the cells by column name. *)
Abbreviation Series := (gmap string cell).

(** [col in row and pd.notna(row[col])], with the cell when it holds. *)
Definition present (row : Series) (col : string) : option cell :=
  match row !! col with
  | Some c => if notna c then Some c else None
  | None => None
  end.

(** The two tests on [side_str], lines 50 and 52. *)
Definition side_long (s : string) : bool :=
  Str.contains "b" s || Str.contains "buy" s || Str.contains "long" s.
Definition side_short (s : string) : bool :=
  Str.contains "a" s || Str.contains "sell" s || Str.contains "short" s.

Section with_host.
Context (host : Host).

(** [str(c)]. *)
Definition to_str (c : cell) : string :=
  match c with
  | CInt z => str_int z
  | CFloat f => float_repr host f
  | CStr s => s
  end.

(** The seconds-or-milliseconds rule on a float, lines 26 to 28 and 38 to
    40. *)
Definition float_to_ms (x : pyfloat) : res Z :=
  if fltb x (of_int threshold) then int_of_float (fscale x 1000)
  else int_of_float x.

(** The outer [try] of the string branch, lines 32 and 33. *)
Definition iso_to_ms (ts : string) : res Z :=
  match fromisoformat (Str.replace "Z" "+00:00" ts) with
  | None => Raise ValueError
  | Some dt => us ← timestamp_us host dt; Ok (us ÷ 1000)
  end.

(** The inner [try], lines 37 to 40. *)
Definition numeric_string_to_ms (ts : string) : res Z :=
  match float_of_string ts with
  | None => Raise ValueError
  | Some num => float_to_ms num
  end.

(** [parse_timestamp(ts)]; [Ok None] is the returned [None]. *)
Definition parse_timestamp (ts : cell) : res (option Z) :=
  match ts with
  | CInt n => Ok (Some (if n <? threshold then n * 1000 else n))
  | CFloat x => ms ← float_to_ms x; Ok (Some ms)
  | CStr s =>
      match iso_to_ms s with
      | Ok ms => Ok (Some ms)
      | Raise _ =>
          match numeric_string_to_ms s with
          | Ok ms => Ok (Some ms)
          | Raise _ => Ok None
          end
      end
  end.

(** Lines 48 to 53: what the [side] column decides, if anything. *)
Definition side_rule (row : Series) : option string :=
  match present row "side" with
  | Some c =>
      let side_str := Str.lower (to_str c) in
      if side_long side_str then Some "long"
      else if side_short side_str then Some "short"
      else None
  | None => None
  end.

(** Lines 56 to 61: what the [direction] column decides. *)
Definition direction_rule (row : Series) : option string :=
  match present row "direction" with
  | Some c =>
      let dir_str := Str.lower (to_str c) in
      if Str.contains "long" dir_str then Some "long"
      else if Str.contains "short" dir_str then Some "short"
      else None
  | None => None
  end.

(** [c > 0] and [c < 0] for a cell; comparing a string with [0] raises
    [TypeError]. *)
Definition cell_gt0 (c : cell) : res bool :=
  match c with
  | CInt z => Ok (0 <? z)
  | CFloat f => Ok (fltb (of_int 0) f)
  | CStr _ => Raise TypeError
  end.

Definition cell_lt0 (c : cell) : res bool :=
  match c with
  | CInt z => Ok (z <? 0)
  | CFloat f => Ok (fltb f (of_int 0))
  | CStr _ => Raise TypeError
  end.

(** Lines 64 to 68: what the sign of [position_size] decides. *)
Definition position_rule (row : Series) : res (option string) :=
  match present row "position_size" with
  | Some c =>
      above ← cell_gt0 c;
      if above : bool then Ok (Some "long")
      else
        below ← cell_lt0 c;
        Ok (if below : bool then Some "short" else None)
  | None => Ok None
  end.

(** [determine_side(row)]: the three rules in turn, then the fallback of
    line 70. *)
Definition determine_side (row : Series) : res string :=
  match side_rule row with
  | Some s => Ok s
  | None =>
      match direction_rule row with
      | Some s => Ok s
      | None =>
          r ← position_rule row;
          Ok (default "long" r)
      end
  end.

(** The first of [cols] that is present with a value, lines 100 to 103 and
    107 to 110. *)
Fixpoint first_present (row : Series) (cols : list string) : option cell :=
  match cols with
  | [] => None
  | col :: cols' =>
      match present row col with
      | Some c => Some c
      | None => first_present row cols'
      end
  end.

(** An entry of [events]. *)
Record Event := {
  timestamp : Z;
  timestampISO : string;
  asset : string;
  notionalUsd : pyfloat;
  side : string;
  liquidatedUserId : string;
  targetUserId : string;
  batchId : string;
  equityBefore : option pyfloat;
  equityAfter : option pyfloat;
  leverage : option pyfloat;
  realizedPnl : option pyfloat;
  unrealizedPnl : option pyfloat
}.

(** [x or dflt] for a string that may be [None]. *)
Definition or_else (x : option string) (dflt : string) : string :=
  match x with
  | Some s => if bool_decide (s = EmptyString) then dflt else s
  | None => dflt
  end.

(** An optional numeric field, as in lines 141 and 142. *)
Definition optional_float (row : Series) (col : string) : res (option pyfloat) :=
  match present row col with
  | Some c => f ← to_float c; Ok (Some f)
  | None => Ok None
  end.

(** The timestamp of a row, lines 91 to 93. *)
Definition row_timestamp (row : Series) : res (option Z) :=
  match row !! "time" with
  | Some c => parse_timestamp c
  | None => Ok None
  end.

(** The notional of a row, lines 106 to 110. *)
Definition row_notional (row : Series) : res (option pyfloat) :=
  match first_present row ["adl_notional"; "notional"; "usd"; "value"] with
  | Some c => f ← to_float c; Ok (Some f)
  | None => Ok None
  end.

(** The test of line 112, [notional is None or notional <= 0]. *)
Definition notional_rejected (notional : option pyfloat) : bool :=
  match notional with
  | None => true
  | Some x => fleb x (of_int 0)
  end.

(** Lines 115 to 154 for a row that passed both tests. *)
Definition make_event (row : Series) (timestamp_ms : Z)
    (asset : option string) (notional : pyfloat) : res Event :=
  let liquidated_user := to_str <$> present row "liquidated_user" in
  let target_user := to_str <$> present row "user" in
  sd ← determine_side row;
  iso ← local_isoformat host timestamp_ms;
  eb ← optional_float row "account_value_realtime";
  ea ← optional_float row "total_equity";
  lv ← optional_float row "leverage_realtime";
  rp ← optional_float row "closed_pnl";
  up ← optional_float row "position_unrealized_pnl";
  Ok {| timestamp := timestamp_ms;
        timestampISO := iso ++ "Z";
        asset := or_else asset "UNKNOWN";
        notionalUsd := notional;
        side := sd;
        liquidatedUserId := or_else liquidated_user EmptyString;
        targetUserId := or_else target_user EmptyString;
        batchId := str_int (timestamp_ms ÷ 1000);
        equityBefore := eb;
        equityAfter := ea;
        leverage := lv;
        realizedPnl := rp;
        unrealizedPnl := up |}.

(** The body of the loop of lines 89 to 156: the event to append, if any. *)
Definition process_row (row : Series) : res (option Event) :=
  ts ← row_timestamp row;
  match ts with
  | None => Ok None
  | Some timestamp_ms =>
      let asset := to_str <$> first_present row ["coin"; "asset"; "ticker"; "symbol"] in
      notional ← row_notional row;
      if notional_rejected notional then Ok None
      else
        match notional with
        | Some x => ev ← make_event row timestamp_ms asset x; Ok (Some ev)
        | None => Ok None
        end
  end.

(** The loop itself: [events] before it is sorted. *)
Fixpoint collect (df : list Series) : res (list Event) :=
  match df with
  | [] => Ok []
  | row :: df' =>
      ev ← process_row row;
      rest ← collect df';
      Ok (match ev with Some e => e :: rest | None => rest end)
  end.

(** [events.sort(key=lambda x: x['timestamp'])]. *)
Definition sort_events (events : list Event) : list Event :=
  sorted_by (λ y x, timestamp y <? timestamp x) events.

(** [events] as the script dumps it. *)
Definition events (df : list Series) : res (list Event) :=
  evs ← collect df; Ok (sort_events evs).

End with_host.

(** *** The dumped document, lines 185 to 197 *)

Module Meta.
Record t := {
  eventCount : nat;
  start : Z;
  end_ : Z;
  totalNotionalUsd : pyfloat;
  uniqueAssets : nat;
  uniqueAccounts : nat
}.
End Meta.

Record Document := {
  metadata : Meta.t;
  doc_events : list Event
}.

(** The argument of [json.dump], with the statistics of lines 170 to 172
    where [events] is not empty and the literal zeros where it is. *)
Definition document (events : list Event) : Document := {|
  metadata := {|
    Meta.eventCount := length events;
    Meta.start := match events with e :: _ => timestamp e | [] => 0 end;
    Meta.end_ := match last events with Some e => timestamp e | None => 0 end;
    Meta.totalNotionalUsd :=
      match events with
      | [] => of_int 0
      | _ => fsum (notionalUsd <$> events)
      end;
    Meta.uniqueAssets :=
      match events with
      | [] => 0%nat
      | _ => size (list_to_set (asset <$> events) : gset string)
      end;
    Meta.uniqueAccounts :=
      match events with
      | [] => 0%nat
      | _ =>
          size (list_to_set
                  (List.filter (λ u, negb (bool_decide (u = EmptyString)))
                     (targetUserId <$> events)) : gset string)
      end
  |};
  doc_events := events
|}.

(** The whole script, from the loaded table to the dumped document. *)
Definition export_events (host : Host) (df : list Series) : res Document :=
  evs ← events host df; Ok (document evs).

(** *** Vocabulary of the statements about the loop *)

(** The columns of asset names, in the order of line 100. *)
Definition asset_columns : list string := ["coin"; "asset"; "ticker"; "symbol"].

(** The columns of notionals, in the order of line 107. *)
Definition notional_columns : list string :=
  ["adl_notional"; "notional"; "usd"; "value"].

(** The columns whose cells the loop hands to [float]. *)
Definition float_columns : list string :=
  (notional_columns
   ++ ["account_value_realtime"; "total_equity"; "leverage_realtime";
       "closed_pnl"; "position_unrealized_pnl"])%list.

(** A cell that [float] accepts: a number, or a text that it reads. *)
Definition numeric (c : cell) : bool :=
  match c with
  | CStr s => match float_of_string s with Some _ => true | None => false end
  | _ => true
  end.

(** A row without any of the cells the loop trips over: its [time] is not
    a NaN or an infinite float, its float columns hold numeric cells, its
    [position_size] is not a text, and the host prints its timestamp. *)
Definition clean_row (host : Host) (row : Series) : bool :=
  match row !! "time" with
  | Some (CFloat (Fin _)) | Some (CInt _) | Some (CStr _) | None => true
  | Some (CFloat _) => false
  end
  && forallb (λ col, match row !! col with
                     | Some c => numeric c
                     | None => true
                     end) float_columns
  && match row !! "position_size" with
     | Some (CStr _) => false
     | _ => true
     end
  && match row_timestamp host row with
     | Ok (Some ts) =>
         match local_isoformat host ts with
         | Ok _ => true
         | Raise _ => false
         end
     | _ => true
     end.

(** *** Sample tables *)

(** A row with a missing [time] after a well-formed one. *)
Definition missing_time : list Series := [
  {[ "time" := CInt 1696900000000; "coin" := CStr "BTC";
     "adl_notional" := CFloat (Fin 100) ]};
  {[ "time" := CFloat NaN; "coin" := CStr "BTC";
     "adl_notional" := CFloat (Fin 100) ]} ].

(** Four rows: two share a timestamp, one has no notional, the last one is
    the earliest. *)
Definition sample : list Series := [
  {[ "time" := CInt 1696900000500; "coin" := CStr "BTC"; "side" := CStr "B";
     "adl_notional" := CFloat (Fin 100) ]};
  {[ "time" := CInt 1696900000500; "coin" := CStr "ETH"; "side" := CStr "A";
     "adl_notional" := CFloat (Fin 50) ]};
  {[ "time" := CInt 1696900000700; "coin" := CStr "SOL";
     "adl_notional" := CFloat (Fin 0) ]};
  {[ "time" := CStr "2023-10-10T00:00:00Z"; "coin" := CStr "SOL";
     "adl_notional" := CInt 7 ]} ].

End Events.

(** * Properties *)

Open Scope list_scope.

(** Runs the [res] monad one step further where its argument is known. *)
Ltac simpl_res := cbn [mbind res_bind bind].

(** ** The library models on examples *)

Example utc_isoformat_epoch :
  Calendar.utc_isoformat 0 = Py.Ok "1970-01-01T00:00:00+00:00".
Proof. reflexivity. Qed.

Example utc_isoformat_leap_day :
  Calendar.utc_isoformat 951782400 = Py.Ok "2000-02-29T00:00:00+00:00"
  ∧ Calendar.days_from_civil 2000 2 29 = 11016
  ∧ Calendar.civil_from_days 11016 = (2000, 2, 29).
Proof. by vm_compute. Qed.

Example utc_isoformat_range :
  Calendar.utc_isoformat Calendar.max_second
  = Py.Ok "9999-12-31T23:59:59+00:00"
  ∧ Calendar.utc_isoformat (Calendar.max_second + 1) = Py.Raise ValueError
  ∧ Calendar.utc_isoformat Calendar.min_second
    = Py.Ok "0001-01-01T00:00:00+00:00".
Proof. by vm_compute. Qed.

Example replace_examples :
  Str.replace "+00:00" "Z" "2001-09-09T01:46:40+00:00" = "2001-09-09T01:46:40Z"
  ∧ Str.replace "XY" "Q" "aXYbXY" = "aQbQ"
  ∧ Str.replace "aa" "b" "aaa" = "ba"
  ∧ Str.replace "Z" "+00:00" "not-a-timestamp" = "not-a-timestamp".
Proof. by vm_compute. Qed.

Example contains_examples :
  Str.contains "sell" "i sell" = true
  ∧ Str.contains "a" (Str.lower "ASK") = true
  ∧ Str.contains "long" "short" = false.
Proof. by vm_compute. Qed.

Example fromisoformat_examples :
  PyLib.fromisoformat "2023-02-29" = None
  ∧ PyLib.fromisoformat "2023-10-10T00:00:00Z" = None
  ∧ PyLib.fromisoformat "2023-10-10 12:30"
    = Some {| PyLib.year := 2023; PyLib.month := 10; PyLib.day := 10;
              PyLib.hour := 12; PyLib.minute := 30; PyLib.second := 0;
              PyLib.microsecond := 0; PyLib.tzoffset := None |}
  ∧ PyLib.fromisoformat "2023-10-10T00:00:00.123-05:00"
    = Some {| PyLib.year := 2023; PyLib.month := 10; PyLib.day := 10;
              PyLib.hour := 0; PyLib.minute := 0; PyLib.second := 0;
              PyLib.microsecond := 123000;
              PyLib.tzoffset := Some (-18000000000) |}.
Proof. by vm_compute. Qed.

Example float_of_string_examples :
  PyLib.float_of_string " -1.5e3 " = Some (Fin (-1500))
  ∧ PyLib.float_of_string "1e-2" = Some (Fin (1 # 100))
  ∧ PyLib.float_of_string "-Infinity" = Some NInf
  ∧ PyLib.float_of_string "nan" = Some NaN
  ∧ PyLib.float_of_string "1.2.3" = None
  ∧ PyLib.float_of_string "." = None
  ∧ PyLib.float_of_string "not-a-timestamp" = None.
Proof. by vm_compute. Qed.

(** ** Floats *)

#[global] Instance feq_equiv : Equivalence feq.
Proof.
  split.
  - intros []; simpl; auto with qarith.
  - intros [] []; simpl; auto with qarith.
  - intros [] [] []; simpl; try tauto. intros H1 H2. by rewrite H1.
Qed.

#[global] Instance fadd_proper : Proper (feq ==> feq ==> feq) fadd.
Proof.
  intros [] [] H1 [] [] H2; simpl in *; try tauto. by rewrite H1, H2.
Qed.

Lemma fadd_comm x y : fadd x y ≈ fadd y x.
Proof. destruct x, y; simpl; try tauto. ring. Qed.

Lemma fadd_assoc x y z : fadd (fadd x y) z ≈ fadd x (fadd y z).
Proof. destruct x, y, z; simpl; try tauto. ring. Qed.

Lemma fadd_0_l x : fadd (Fin 0) x ≈ x.
Proof. destruct x; simpl; try tauto. ring. Qed.

Lemma fadd_0_r x : fadd x (Fin 0) ≈ x.
Proof. destruct x; simpl; try tauto. ring. Qed.

Lemma fold_left_fadd_proper l : Proper (feq ==> feq) (fold_left fadd l).
Proof.
  induction l as [|x l IH]; intros a b Hab; simpl; [done|].
  apply IH. by rewrite Hab.
Qed.

Lemma fold_left_fadd_shift l a x :
  fold_left fadd l (fadd a x) ≈ fadd (fold_left fadd l a) x.
Proof.
  revert a. induction l as [|y l IH]; intros a; simpl; [done|].
  rewrite <- IH. apply fold_left_fadd_proper.
  rewrite !fadd_assoc. apply fadd_proper; [done | apply fadd_comm].
Qed.

Lemma fsum_cons x l : fsum (x :: l) ≈ fadd x (fsum l).
Proof.
  unfold fsum. cbn [fold_left]. rewrite fold_left_fadd_shift. apply fadd_comm.
Qed.

Lemma fsum_snoc l x : fsum (l ++ [x]) = fadd (fsum l) x.
Proof. unfold fsum. by rewrite fold_left_app. Qed.

(** [x > 0] holds for the positive finite values and for [+inf] only. *)
Lemma positive_inv x :
  Flow.positive x = true → x = PInf ∨ ∃ q, x = Fin q ∧ (0 < q)%Q.
Proof.
  destruct x as [q| | |]; simpl; try done; [|by left].
  unfold Flow.positive, of_int; simpl. intros H. right. exists q. split; [done|].
  apply negb_true_iff in H. apply Qnot_le_lt. intros Hle.
  apply Qle_bool_iff in Hle. change (inject_Z 0) with 0%Q in H. congruence.
Qed.

Lemma positive_Fin q : Flow.positive (Fin q) = true ↔ (0 < q)%Q.
Proof.
  split.
  - intros H. destruct (positive_inv _ H) as [|(q' & [= <-] & ?)]; done.
  - intros H. unfold Flow.positive, of_int; simpl. apply negb_true_iff.
    destruct (Qle_bool q (inject_Z 0)) eqn:E; [|done].
    apply Qle_bool_iff in E. change (inject_Z 0) with 0%Q in E.
    exfalso. by apply (Qlt_not_le _ _ H).
Qed.

(** The filter of line 78 lets through exactly the rows whose absolute
    notional is positive. *)
Lemma skipped_positive row :
  Flow.skipped row = negb (Flow.positive (Flow.notional_of row)).
Proof.
  unfold Flow.skipped, Flow.positive.
  destruct (Flow.notional_of row) as [q| | |]; simpl; try done.
  by rewrite negb_involutive, orb_false_r.
Qed.

(** ** Dictionaries *)

Section odict_facts.
Context {K V : Type} `{EqDecision K}.
Implicit Types (d : list (K * V)) (k : K) (f : V → V).

Lemma keys_upd f dflt k d :
  ODict.keys (ODict.upd f dflt k d)
  = if bool_decide (k ∈ ODict.keys d) then ODict.keys d else ODict.keys d ++ [k].
Proof.
  unfold ODict.keys. induction d as [|[k' v] d IH]; [done|].
  cbn [ODict.upd]. destruct (decide (k = k')) as [->|Hne]; rewrite !fmap_cons.
  - rewrite bool_decide_eq_true_2; [done | left].
  - rewrite IH. cbn [fst]. destruct (bool_decide (k ∈ d.*1)) eqn:E.
    + apply bool_decide_eq_true in E.
      rewrite bool_decide_eq_true_2; [done | by right].
    + apply bool_decide_eq_false in E.
      rewrite bool_decide_eq_false_2; [done|].
      rewrite elem_of_cons. intros [?|?]; done.
Qed.

Lemma elem_of_keys_upd f dflt k k' d :
  k' ∈ ODict.keys (ODict.upd f dflt k d) ↔ k' = k ∨ k' ∈ ODict.keys d.
Proof.
  rewrite keys_upd. case_bool_decide as Hk.
  - split; [by right | intros [->|?]; done].
  - rewrite elem_of_app, list_elem_of_singleton. tauto.
Qed.

Lemma NoDup_keys_upd f dflt k d :
  NoDup (ODict.keys d) → NoDup (ODict.keys (ODict.upd f dflt k d)).
Proof.
  intros Hnd. rewrite keys_upd. case_bool_decide as Hk; [done|].
  apply NoDup_app. split_and!; [done | | apply NoDup_singleton].
  intros x Hx ->%list_elem_of_singleton. done.
Qed.

Lemma get_upd_eq f dflt k d :
  ODict.get (ODict.upd f dflt k d) k = Some (f (default dflt (ODict.get d k))).
Proof.
  induction d as [|[k' v] d IH]; simpl.
  - by rewrite decide_True.
  - destruct (decide (k = k')) as [->|Hne]; simpl.
    + by rewrite decide_True.
    + by rewrite decide_False.
Qed.

Lemma get_upd_ne f dflt k k' d :
  k ≠ k' → ODict.get (ODict.upd f dflt k d) k' = ODict.get d k'.
Proof.
  intros Hne. induction d as [|[k0 v] d IH]; simpl.
  - by rewrite decide_False.
  - destruct (decide (k = k0)) as [->|Hne0]; simpl.
    + by rewrite !decide_False.
    + destruct (decide (k' = k0)); done.
Qed.

Lemma get_Some_elem_of d k v : ODict.get d k = Some v → (k, v) ∈ d.
Proof.
  induction d as [|[k' v'] d IH]; simpl; [done|].
  destruct (decide (k = k')) as [->|Hne].
  - intros [= ->]. left.
  - intros H'. right. auto.
Qed.

Lemma get_is_Some d k : k ∈ ODict.keys d → is_Some (ODict.get d k).
Proof.
  unfold ODict.keys. induction d as [|[k' v'] d IH]; simpl.
  - by intros ?%elem_of_nil.
  - destruct (decide (k = k')) as [->|Hne]; [by eauto|].
    intros [?|?]%elem_of_cons; [done | auto].
Qed.

(** Over distinct keys, looking every key up gives the values in order. *)
Lemma get_keys d :
  NoDup (ODict.keys d) →
  (λ k, ODict.get d k) <$> ODict.keys d = Some <$> ODict.values d.
Proof.
  unfold ODict.keys, ODict.values.
  induction d as [|[k v] d IH]; [done|].
  rewrite !fmap_cons. intros [Hk Hnd]%NoDup_cons. cbn [fst snd ODict.get].
  rewrite decide_True by done. f_equal.
  rewrite <- IH by done. apply list_fmap_ext. intros i k' Hk'.
  apply list_elem_of_lookup_2 in Hk'.
  destruct (decide (k' = k)) as [->|]; done.
Qed.

Lemma Forall_upd (P : V → Prop) f dflt k d :
  P (f dflt) → (∀ v, P v → P (f v)) →
  Forall (λ kv, P kv.2) d → Forall (λ kv, P kv.2) (ODict.upd f dflt k d).
Proof.
  intros Hd Hf. induction d as [|[k' v] d IH]; simpl; intros Hall.
  - by constructor.
  - apply Forall_cons in Hall as [Hv Hall].
    destruct (decide (k = k')); constructor; simpl in *; auto.
Qed.

End odict_facts.

(** [d[k] += x] adds [x] to the sum of the values of [d]. *)
Lemma fsum_values_add_to {K} `{EqDecision K} (k : K) x (d : list (K * pyfloat)) :
  fsum (ODict.values (Flow.add_to k x d)) ≈ fadd (fsum (ODict.values d)) x.
Proof.
  unfold ODict.values, Flow.add_to.
  induction d as [|[k' v] d IH]; simpl.
  - rewrite fsum_cons. unfold fsum; simpl. by rewrite fadd_0_r.
  - destruct (decide (k = k')) as [->|Hne]; simpl.
    + rewrite !fsum_cons, !fadd_assoc.
      apply fadd_proper; [done | apply fadd_comm].
    + rewrite !fsum_cons, IH. by rewrite fadd_assoc.
Qed.

(** ** Stable sorting *)

Section sorting.
Context {A : Type}.
Implicit Types (l : list A).

Lemma insert_by_perm (lt : A → A → bool) x l : insert_by lt x l ≡ₚ x :: l.
Proof.
  induction l as [|y l IH]; simpl; [done|].
  destruct (lt y x); [|done]. rewrite IH. apply perm_swap.
Qed.

Lemma sorted_by_perm (lt : A → A → bool) l : sorted_by lt l ≡ₚ l.
Proof.
  induction l as [|x l IH]; simpl; [done|].
  rewrite insert_by_perm. by constructor.
Qed.

Lemma StronglySorted_lookup_lt (R : relation A) l i j a b :
  StronglySorted R l → (i < j)%nat → l !! i = Some a → l !! j = Some b → R a b.
Proof.
  intros Hs. revert i j. induction Hs as [|x l Hs IH Hx]; intros i j Hij; [done|].
  destruct i as [|i], j as [|j]; simpl; try lia.
  - intros [= ->] Hj. by eapply (Forall_lookup_1 _ _ _ _ Hx).
  - apply IH. lia.
Qed.

(** Sorting puts the list in order, for a comparison [lt] that is the
    strict side of a transitive order [le] on the elements at hand. *)
Section order.
Context (lt : A → A → bool) (le : relation A) (P : A → Prop).
Hypothesis lt_le : ∀ y x, P y → P x → lt y x = true → le y x.
Hypothesis not_lt_le : ∀ y x, P y → P x → lt y x = false → le x y.
Hypothesis le_trans : ∀ x y z, le x y → le y z → le x z.

Lemma insert_by_sorted x l :
  P x → Forall P l →
  StronglySorted le l → StronglySorted le (insert_by lt x l).
Proof.
  intros Hx Hl Hs. induction Hs as [|y l Hs IH Hy]; simpl.
  - repeat constructor.
  - apply Forall_cons in Hl as [HPy Hl].
    destruct (lt y x) eqn:Hlt.
    + constructor; [by apply IH|].
      rewrite insert_by_perm. constructor; [by apply lt_le | done].
    + assert (le x y) by (by apply not_lt_le).
      constructor; [by constructor|].
      constructor; [done|]. eapply Forall_impl; [exact Hy|]. eauto.
Qed.

Lemma sorted_by_sorted l : Forall P l → StronglySorted le (sorted_by lt l).
Proof.
  induction 1 as [|x l Hx Hl IH]; simpl; [constructor|].
  apply insert_by_sorted; [done | by rewrite sorted_by_perm | done].
Qed.

End order.

(** Sorting by an integer key, smallest first. *)
Context (key : A → Z).
Let lt_key (y x : A) : bool := key y <? key x.

Lemma sorted_by_key_sorted l :
  StronglySorted (λ a b, key a ≤ key b) (sorted_by lt_key l).
Proof.
  apply (sorted_by_sorted lt_key _ (λ _, True)).
  - intros y x _ _. unfold lt_key. lia.
  - intros y x _ _. unfold lt_key. lia.
  - intros x y z. lia.
  - by apply Forall_true.
Qed.

(** Stability: the elements of any one key come out in the order they
    came in. *)
Lemma insert_by_key_stable t x l :
  List.filter (λ a, key a =? t) (insert_by lt_key x l)
  = List.filter (λ a, key a =? t) (x :: l).
Proof.
  induction l as [|y l IH]; [done|].
  cbn [insert_by]. unfold lt_key at 1.
  destruct (Z.ltb_spec (key y) (key x)) as [Hlt|Hge]; [|done].
  cbn [List.filter] in *. rewrite IH.
  destruct (Z.eqb_spec (key y) t), (Z.eqb_spec (key x) t); try done. lia.
Qed.

Lemma sorted_by_key_stable t l :
  List.filter (λ a, key a =? t) (sorted_by lt_key l)
  = List.filter (λ a, key a =? t) l.
Proof.
  induction l as [|x l IH]; [done|].
  cbn [sorted_by foldr]. rewrite insert_by_key_stable.
  cbn [List.filter]. by rewrite <- IH.
Qed.

Lemma sorted_by_key_distinct l :
  NoDup (key <$> l) →
  StronglySorted (λ a b, key a < key b) (sorted_by lt_key l).
Proof.
  intros Hnd.
  assert (NoDup (key <$> sorted_by lt_key l)) as Hnd'.
  { by rewrite (sorted_by_perm lt_key l). }
  pose proof (sorted_by_key_sorted l) as Hs.
  induction Hs as [|x l' Hs IH Hx]; [constructor|].
  rewrite fmap_cons in Hnd'. apply NoDup_cons in Hnd' as [Hx' Hnd'].
  constructor; [by apply IH|].
  apply Forall_forall. intros y Hy.
  assert (key x ≤ key y) by (by eapply Forall_forall in Hx).
  assert (key x ≠ key y); [|lia].
  intros Heq. apply Hx'. rewrite Heq. by apply list_elem_of_fmap_2.
Qed.

End sorting.

(** ** The aggregation pass of [export_flow_data.py] *)

Section flow_pass.
Import Flow.

Lemma accumulate_snoc df row :
  accumulate (df ++ [row]) = step (accumulate df) row.
Proof. unfold accumulate. by rewrite fold_left_app. Qed.

Lemma kept_snoc df row :
  kept (df ++ [row]) = if skipped row then kept df else kept df ++ [row].
Proof.
  unfold kept, passes. rewrite List.filter_app. simpl.
  destruct (skipped row); simpl; [by rewrite app_nil_r | done].
Qed.

(** A row stopped by the filter leaves every aggregate as it was. *)
Lemma step_skipped st row :
  skipped row = true → same_aggregates (step st row) st.
Proof. intros H. unfold step. rewrite H. by repeat split. Qed.

(** The aggregates after a row depend on the aggregates before it only. *)
Lemma step_same_aggregates s1 s2 row :
  same_aggregates s1 s2 → same_aggregates (step s1 row) (step s2 row).
Proof.
  intros (H1 & H2 & H3 & H4 & H5 & H6 & H7 & H8). unfold step.
  destruct (skipped row); repeat split; simpl; congruence.
Qed.

Lemma same_aggregates_trans s1 s2 s3 :
  same_aggregates s1 s2 → same_aggregates s2 s3 → same_aggregates s1 s3.
Proof.
  intros (?&?&?&?&?&?&?&?) (?&?&?&?&?&?&?&?). repeat split; congruence.
Qed.

(** Dropping the filtered rows beforehand gives the same aggregates. *)
Lemma accumulate_kept df :
  same_aggregates (accumulate df) (accumulate (kept df)).
Proof.
  induction df as [|row df IH] using rev_ind; [by repeat split|].
  rewrite accumulate_snoc, kept_snoc.
  destruct (skipped row) eqn:Hs.
  - eapply same_aggregates_trans; [by apply step_skipped | done].
  - rewrite accumulate_snoc. by apply step_same_aggregates.
Qed.

(** The filter in terms of the cell: it stops zero and NaN, nothing else. *)
Lemma skipped_iff row :
  skipped row = true ↔ zero_or_missing (adl_notional row).
Proof.
  unfold skipped, notional_of, zero_or_missing.
  destruct (adl_notional row) as [q| | |]; simpl.
  - rewrite orb_false_r. change (inject_Z 0) with 0%Q. rewrite Qle_bool_iff.
    split.
    + intros Hle. right. exists q. split; [done|].
      destruct q as [n p]. unfold Qabs, Qle, Qeq in *. simpl in *. lia.
    + intros [|(q' & [= <-] & Hq)]; [done|].
      destruct q as [n p]. unfold Qabs, Qle, Qeq in *. simpl in *. lia.
  - split; [done | intros [|(? & ? & _)]; done].
  - split; [done | intros [|(? & ? & _)]; done].
  - split; [by left | done].
Qed.

(** A bucket exists for a second exactly when a row of that second got
    past the filter. *)
Lemma bucket_keys df k :
  k ∈ ODict.keys (time_buckets (accumulate df))
  ↔ ∃ row, row ∈ df ∧ skipped row = false ∧ bucket_key (time row) = k.
Proof.
  induction df as [|row df IH] using rev_ind.
  - simpl. split; [by intros ?%elem_of_nil | by intros (? & ?%elem_of_nil & _)].
  - rewrite accumulate_snoc. unfold step at 1.
    destruct (skipped row) eqn:Hs; cbn [time_buckets].
    + rewrite IH. split; intros (r & Hr & Hk & Hb).
      * exists r. rewrite elem_of_app. auto.
      * apply elem_of_app in Hr as [Hr | ->%list_elem_of_singleton];
          [by exists r | congruence].
    + rewrite elem_of_keys_upd, IH. split.
      * intros [-> | (r & Hr & Hk & Hb)].
        -- exists row. rewrite elem_of_app, list_elem_of_singleton. auto.
        -- exists r. rewrite elem_of_app. auto.
      * intros (r & Hr & Hk & Hb).
        apply elem_of_app in Hr as [Hr | ->%list_elem_of_singleton];
          [right; by exists r | by left].
Qed.

Lemma NoDup_bucket_keys df : NoDup (ODict.keys (time_buckets (accumulate df))).
Proof.
  induction df as [|row df IH] using rev_ind; [constructor|].
  rewrite accumulate_snoc. unfold step.
  destruct (skipped row); cbn [time_buckets]; [done|].
  by apply NoDup_keys_upd.
Qed.

End flow_pass.

(** ** Order on floats *)

Lemma positive_nonneg x : Flow.positive x = true → nonneg x.
Proof.
  intros [->|(q & -> & Hq)]%positive_inv; unfold nonneg; simpl; [done|].
  apply Qle_bool_iff. by apply Qlt_le_weak.
Qed.

Lemma fleb_refl x : nonneg x → fleb x x = true.
Proof.
  unfold nonneg. destruct x; simpl; try done. intros _.
  apply Qle_bool_iff, Qle_refl.
Qed.

Lemma fleb_trans x y z : fleb x y = true → fleb y z = true → fleb x z = true.
Proof.
  destruct x, y, z; simpl; try done.
  rewrite !Qle_bool_iff. apply Qle_trans.
Qed.

Lemma fleb_fadd x y :
  nonneg x → Flow.positive y = true → fleb x (fadd x y) = true.
Proof.
  unfold nonneg. intros Hx [->|(q & -> & Hq)]%positive_inv;
    destruct x as [p| | |]; simpl in *; try done.
  apply Qle_bool_iff in Hx. apply Qle_bool_iff. lra.
Qed.

Lemma positive_fadd x y :
  nonneg x → Flow.positive y = true → Flow.positive (fadd x y) = true.
Proof.
  unfold nonneg. intros Hx [->|(q & -> & Hq)]%positive_inv;
    destruct x as [p| | |]; simpl in *; try done.
  apply Qle_bool_iff in Hx. apply positive_Fin. lra.
Qed.

Lemma fltb_fleb x y : fltb x y = true → fleb x y = true.
Proof.
  destruct x as [a| | |], y as [b| | |]; simpl; try done.
  intros H%negb_true_iff. apply Qle_bool_iff.
  destruct (Qlt_le_dec a b) as [Hlt|Hle]; [by apply Qlt_le_weak|].
  apply Qle_bool_iff in Hle. congruence.
Qed.

Lemma not_fltb_fleb x y :
  Flow.positive x = true → Flow.positive y = true →
  fltb x y = false → fleb y x = true.
Proof.
  intros [->|(a & -> & Ha)]%positive_inv [->|(b & -> & Hb)]%positive_inv;
    simpl; try done.
  intros H%negb_false_iff. done.
Qed.

(** ** The time series *)

Section time_series.
Import Flow.

Lemma utc_isoformat_Ok secs :
  Calendar.min_second ≤ secs ≤ Calendar.max_second →
  ∃ iso, Calendar.utc_isoformat secs = Ok iso.
Proof.
  intros [Hlo Hhi]. unfold Calendar.utc_isoformat.
  destruct (Z.ltb_spec secs Calendar.min_second); [lia|].
  destruct (Z.ltb_spec Calendar.max_second secs); [lia|]. cbn [orb]. eauto.
Qed.

(** One turn of the loop, read off a successful run. *)
Lemma buckets_loop_cons tb k ks c cl ca bl :
  buckets_loop tb (k :: ks) c cl ca = Ok bl →
  ∃ b bl' cl' ca',
    bl = b :: bl'
    ∧ Summary.time b = k
    ∧ Summary.notionalInBucket b = Bucket.cumulativeNotional (bucket_at tb k)
    ∧ Summary.eventCount b = Bucket.eventCount (bucket_at tb k)
    ∧ Summary.cumulativeNotional b
      = fadd c (Bucket.cumulativeNotional (bucket_at tb k))
    ∧ buckets_loop tb ks (fadd c (Bucket.cumulativeNotional (bucket_at tb k)))
        cl' ca' = Ok bl'.
Proof.
  cbn [buckets_loop].
  destruct (Calendar.utc_isoformat (k ÷ 1000)) as [iso|e]; [|done].
  simpl_res.
  destruct (buckets_loop tb ks _ _ _) as [bl'|e] eqn:Hrest; [|done].
  cbn [bind]. intros [= <-]. eexists _, bl', _, _. split_and!; done.
Qed.

Lemma buckets_loop_times tb ks c cl ca bl :
  buckets_loop tb ks c cl ca = Ok bl → Summary.time <$> bl = ks.
Proof.
  revert c cl ca bl. induction ks as [|k ks IH]; intros c cl ca bl.
  - by intros [= <-].
  - intros (b & bl' & cl' & ca' & -> & Ht & _ & _ & _ & Hrest)%buckets_loop_cons.
    rewrite fmap_cons, Ht. f_equal. eauto.
Qed.

Lemma buckets_loop_counts tb ks c cl ca bl :
  buckets_loop tb ks c cl ca = Ok bl →
  Summary.eventCount <$> bl = (λ k, Bucket.eventCount (bucket_at tb k)) <$> ks.
Proof.
  revert c cl ca bl. induction ks as [|k ks IH]; intros c cl ca bl.
  - by intros [= <-].
  - intros (b & bl' & cl' & ca' & -> & _ & _ & He & _ & Hrest)%buckets_loop_cons.
    rewrite !fmap_cons, He. f_equal. eauto.
Qed.

(** The running total reported in a bucket is the total the loop was
    entered with plus the in-bucket notionals up to that bucket. *)
Lemma buckets_loop_prefix tb ks c cl ca bl i b :
  buckets_loop tb ks c cl ca = Ok bl →
  bl !! i = Some b →
  Summary.cumulativeNotional b
  = fold_left fadd (Summary.notionalInBucket <$> take (S i) bl) c.
Proof.
  revert c cl ca bl i. induction ks as [|k ks IH]; intros c cl ca bl i.
  - by intros [= <-].
  - intros (b' & bl' & cl' & ca' & -> & _ & Hn & _ & Hc & Hrest)%buckets_loop_cons.
    destruct i as [|i]; simpl.
    + intros [= ->]. by rewrite Hc, Hn.
    + intros Hi. rewrite (IH _ _ _ _ _ Hrest Hi). by rewrite Hn.
Qed.

(** With positive in-bucket notionals the running total never goes down. *)
Lemma buckets_loop_mono tb ks c cl ca bl :
  nonneg c →
  Forall (λ k, positive (Bucket.cumulativeNotional (bucket_at tb k)) = true) ks →
  buckets_loop tb ks c cl ca = Ok bl →
  Forall (λ b, fleb c (Summary.cumulativeNotional b) = true) bl
  ∧ StronglySorted
      (λ b1 b2, fleb (Summary.cumulativeNotional b1)
                     (Summary.cumulativeNotional b2) = true) bl.
Proof.
  revert c cl ca bl. induction ks as [|k ks IH]; intros c cl ca bl Hc Hpos.
  - intros [= <-]. split; constructor.
  - intros (b & bl' & cl' & ca' & -> & _ & _ & _ & Hcum & Hrest)%buckets_loop_cons.
    apply Forall_cons in Hpos as [Hk Hpos].
    assert (fleb c (Summary.cumulativeNotional b) = true) as Hle.
    { rewrite Hcum. by apply fleb_fadd. }
    destruct (IH _ _ _ _ (positive_nonneg _ (positive_fadd _ _ Hc Hk)) Hpos Hrest)
      as [Hall Hs].
    rewrite <- Hcum in Hall. split.
    + constructor; [done|]. eapply Forall_impl; [exact Hall|].
      intros b'. by apply fleb_trans.
    + by constructor.
Qed.

Lemma buckets_loop_total tb ks c cl ca :
  Forall (λ k, Calendar.min_second ≤ k ÷ 1000 ≤ Calendar.max_second) ks →
  ∃ bl, buckets_loop tb ks c cl ca = Ok bl.
Proof.
  revert c cl ca. induction ks as [|k ks IH]; intros c cl ca Hr; [by eexists|].
  apply Forall_cons in Hr as [Hk Hr]. cbn [buckets_loop].
  destruct (utc_isoformat_Ok _ Hk) as [iso ->]. simpl_res.
  edestruct IH as [bl' ->]; [done|]. cbn [bind]. by eexists.
Qed.

(** Every bucket of the pass holds a positive notional. *)
Lemma buckets_positive df :
  Forall (λ kb, positive (Bucket.cumulativeNotional kb.2) = true)
    (time_buckets (accumulate df)).
Proof.
  induction df as [|row df IH] using rev_ind; [constructor|].
  rewrite accumulate_snoc. unfold step.
  destruct (skipped row) eqn:Hs; cbn [time_buckets]; [done|].
  assert (positive (notional_of row) = true) as Hp.
  { rewrite skipped_positive in Hs. by destruct (positive _). }
  apply (Forall_upd (λ b, positive (Bucket.cumulativeNotional b) = true));
    [| |done].
  - by apply (positive_fadd (Fin 0)).
  - intros b Hb. by apply positive_fadd; [apply positive_nonneg|].
Qed.

Lemma sorted_keys_elem_of (tb : list (Z * Bucket.t)) k :
  k ∈ sorted_keys tb ↔ k ∈ ODict.keys tb.
Proof. unfold sorted_keys. by rewrite sorted_by_perm. Qed.

Lemma sorted_keys_positive df :
  Forall (λ k, positive (Bucket.cumulativeNotional
                           (bucket_at (time_buckets (accumulate df)) k)) = true)
    (sorted_keys (time_buckets (accumulate df))).
Proof.
  apply Forall_forall. intros k Hk%sorted_keys_elem_of.
  destruct (get_is_Some _ _ Hk) as [b Hb]. unfold bucket_at. rewrite Hb. simpl.
  apply get_Some_elem_of in Hb.
  pose proof (buckets_positive df) as Hall.
  rewrite Forall_forall in Hall. by apply (Hall (k, b)).
Qed.

Lemma sorted_keys_ascending df :
  StronglySorted Z.lt (sorted_keys (time_buckets (accumulate df))).
Proof.
  unfold sorted_keys.
  pose proof (sorted_by_key_distinct id (ODict.keys (time_buckets (accumulate df)))) as H.
  rewrite list_fmap_id in H. apply H, NoDup_bucket_keys.
Qed.

End time_series.

(** ** The document *)

Section document.
Import Flow.

(** What a successful run puts in the document. *)
Lemma export_flow_data_Ok df doc :
  export_flow_data df = Ok doc →
  let st := accumulate df in
  time_buckets_list st = Ok (timeBuckets doc)
  ∧ build_metadata df st = Ok (metadata doc)
  ∧ accountFlows doc = account_flows_list st
  ∧ liquidated (topAccounts doc) = top_liquidated st
  ∧ counterparties (topAccounts doc) = top_counterparties st.
Proof.
  unfold export_flow_data. simpl_res.
  destruct (time_buckets_list _) as [tbl|]; [|done]. cbn [bind].
  destruct (build_metadata _ _) as [md|]; [|done]. cbn [bind].
  by intros [= <-].
Qed.

Lemma build_metadata_Ok df st md :
  build_metadata df st = Ok md →
  Metadata.eventCount md = length df
  ∧ min_timestamp st = At (start (Metadata.timeRange md))
  ∧ max_timestamp st = At (end_ (Metadata.timeRange md)).
Proof.
  unfold build_metadata. simpl_res.
  destruct (min_timestamp st) as [| |lo]; try done.
  destruct (max_timestamp st) as [| |hi]; try done.
  by intros [= <-].
Qed.

(** The extreme timestamps after the pass: the least and the greatest
    [time] over all the rows, whatever the filter did with them. *)
Lemma extremes df :
  df ≠ [] →
  ∃ lo hi,
    min_timestamp (accumulate df) = At lo
    ∧ max_timestamp (accumulate df) = At hi
    ∧ (∀ row, row ∈ df → lo ≤ time row ≤ hi)
    ∧ (∃ row, row ∈ df ∧ time row = lo)
    ∧ (∃ row, row ∈ df ∧ time row = hi).
Proof.
  induction df as [|row df IH] using rev_ind; [done|]. intros _.
  rewrite accumulate_snoc.
  assert (min_timestamp (step (accumulate df) row)
          = py_min (min_timestamp (accumulate df)) (At (time row))
          ∧ max_timestamp (step (accumulate df) row)
            = py_max (max_timestamp (accumulate df)) (At (time row)))
    as [-> ->].
  { unfold step. by destruct (skipped row). }
  destruct df as [|r0 df'].
  - exists (time row), (time row). split_and!; try done.
    + intros r ->%list_elem_of_singleton. lia.
    + exists row. split; [left | done].
    + exists row. split; [left | done].
  - destruct IH as (lo & hi & -> & -> & Hall & (rl & Hrl & Hlo) & (rh & Hrh & Hhi));
      [done|].
    unfold py_min, py_max, blt.
    exists (if time row <? lo then time row else lo),
           (if hi <? time row then time row else hi).
    split_and!.
    + by destruct (time row <? lo).
    + by destruct (hi <? time row).
    + intros r [Hr | ->%list_elem_of_singleton]%elem_of_app.
      * specialize (Hall r Hr).
        destruct (Z.ltb_spec (time row) lo), (Z.ltb_spec hi (time row)); lia.
      * destruct (Z.ltb_spec (time row) lo), (Z.ltb_spec hi (time row)); lia.
    + destruct (Z.ltb_spec (time row) lo).
      * exists row. rewrite elem_of_app, list_elem_of_singleton. auto.
      * exists rl. rewrite elem_of_app. auto.
    + destruct (Z.ltb_spec hi (time row)).
      * exists row. rewrite elem_of_app, list_elem_of_singleton. auto.
      * exists rh. rewrite elem_of_app. auto.
Qed.

(** The event counts of the buckets add up to the number of rows that got
    past the filter. *)
Lemma sum_event_count_upd f k (d : list (Z * Bucket.t)) :
  (∀ b, Bucket.eventCount (f b) = (Bucket.eventCount b + 1)%nat) →
  sum_list_with (λ kb, Bucket.eventCount kb.2) (ODict.upd f Bucket.fresh k d)
  = (sum_list_with (λ kb, Bucket.eventCount kb.2) d + 1)%nat.
Proof.
  intros Hf. induction d as [|[k' b] d IH]; simpl.
  - by rewrite Hf.
  - destruct (decide (k = k')); simpl; [rewrite Hf | rewrite IH]; lia.
Qed.

Lemma sum_event_count df :
  sum_list_with (λ kb, Bucket.eventCount kb.2) (time_buckets (accumulate df))
  = length (kept df).
Proof.
  induction df as [|row df IH] using rev_ind; [done|].
  rewrite accumulate_snoc, kept_snoc. unfold step.
  destruct (skipped row); cbn [time_buckets]; [done|].
  rewrite sum_event_count_upd by done. rewrite IH, length_app. done.
Qed.

Lemma sum_list_with_fmap {A B} (f : B → nat) (g : A → B) (l : list A) :
  sum_list_with f (g <$> l) = sum_list_with (f ∘ g) l.
Proof.
  induction l as [|x l IH]; [done|].
  rewrite fmap_cons. cbn [sum_list_with]. by rewrite IH.
Qed.

Lemma bucket_at_keys (tb : list (Z * Bucket.t)) :
  NoDup (ODict.keys tb) → bucket_at tb <$> ODict.keys tb = ODict.values tb.
Proof.
  intros Hnd.
  transitivity (default Bucket.fresh <$> ((λ k, ODict.get tb k) <$> ODict.keys tb)).
  { by rewrite <- list_fmap_compose. }
  rewrite get_keys by done. rewrite <- list_fmap_compose.
  rewrite <- (list_fmap_id (ODict.values tb)) at 2. by apply list_fmap_ext.
Qed.

Lemma sum_summaries df bl :
  time_buckets_list (accumulate df) = Ok bl →
  sum_list_with Summary.eventCount bl = length (kept df).
Proof.
  intros Hbl. unfold time_buckets_list in Hbl.
  set (tb := time_buckets (accumulate df)) in *.
  transitivity (sum_list_with id (Summary.eventCount <$> bl)).
  { by rewrite sum_list_with_fmap. }
  rewrite (buckets_loop_counts _ _ _ _ _ _ Hbl).
  unfold sorted_keys. rewrite sorted_by_perm.
  transitivity (sum_list_with id
                  (Bucket.eventCount <$> (bucket_at tb <$> ODict.keys tb))).
  { by rewrite <- list_fmap_compose. }
  rewrite bucket_at_keys by apply NoDup_bucket_keys.
  rewrite <- sum_event_count. fold tb. unfold ODict.values.
  by rewrite !sum_list_with_fmap.
Qed.

(** A run goes through when the table is not empty and the seconds of the
    rows that pass the filter are dates [datetime] can hold. *)
Lemma export_flow_data_total df :
  df ≠ [] →
  (∀ row, row ∈ df → skipped row = false →
     Calendar.min_second ≤ time row ÷ 1000 ≤ Calendar.max_second) →
  ∃ doc, export_flow_data df = Ok doc.
Proof.
  intros Hne Hrange. unfold export_flow_data, time_buckets_list.
  edestruct (buckets_loop_total (time_buckets (accumulate df))
               (sorted_keys (time_buckets (accumulate df))))
    as [bl ->].
  { apply Forall_forall. intros k Hk%sorted_keys_elem_of.
    apply bucket_keys in Hk as (row & Hin & Hs & <-).
    unfold bucket_key. rewrite Z.quot_mul by done. auto. }
  simpl_res. unfold build_metadata.
  destruct (extremes df Hne) as (lo & hi & -> & -> & _).
  cbn [mbind res_bind bind int_of_bound]. by eexists.
Qed.

(** The emitted edges come from [account_flows] and pass the three tests
    of lines 128, 131 and 133. *)
Lemma elem_of_account_flows_list st e :
  e ∈ account_flows_list st →
  source e ∈ top_accounts_set st
  ∧ target e ∈ top_accounts_set st
  ∧ positive (notional e) = true
  ∧ ∃ targets, (source e, targets) ∈ account_flows st
               ∧ (target e, notional e) ∈ targets.
Proof.
  unfold account_flows_list. rewrite list_elem_of_In, in_flat_map.
  intros ([s targets] & Hin & He).
  case_bool_decide as Hs; [|done].
  apply in_flat_map in He as ([t x] & Hin' & He).
  case_bool_decide as Ht; [|done].
  destruct (positive x) eqn:Hx; [|done].
  destruct He as [<-|[]]. simpl. split_and!; try done.
  exists targets. by rewrite !list_elem_of_In.
Qed.

Lemma elem_of_top_accounts_set st a :
  a ∈ top_accounts_set st
  ↔ a ∈ (top_liquidated st).*1 ∨ a ∈ (top_counterparties st).*1.
Proof.
  unfold top_accounts_set.
  by rewrite elem_of_list_to_set, fmap_app, elem_of_app.
Qed.

(** The totals per account are positive. *)
Lemma totals_positive df :
  Forall (λ kv, positive kv.2 = true) (account_totals_out (accumulate df))
  ∧ Forall (λ kv, positive kv.2 = true) (account_totals_in (accumulate df)).
Proof.
  induction df as [|row df [IHo IHi]] using rev_ind; [by split|].
  rewrite accumulate_snoc. unfold step.
  destruct (skipped row) eqn:Hs;
    cbn [account_totals_out account_totals_in]; [done|].
  assert (positive (notional_of row) = true) as Hp.
  { rewrite skipped_positive in Hs. by destruct (positive _). }
  split; apply (Forall_upd (λ x, positive x = true)); try done.
  - by apply (positive_fadd (Fin 0)).
  - intros v Hv. by apply positive_fadd; [apply positive_nonneg|].
  - by apply (positive_fadd (Fin 0)).
  - intros v Hv. by apply positive_fadd; [apply positive_nonneg|].
Qed.

(** The accounts of [top50] are the ones with the greatest totals: no
    account left out has a total above the total of an account taken. *)
Lemma top50_dominates (totals : list (string * pyfloat)) a x b y :
  Forall (λ kv, positive kv.2 = true) totals →
  (a, x) ∈ top50 totals → (b, y) ∈ totals → (b, y) ∉ top50 totals →
  fleb y x = true.
Proof.
  intros Hpos Ha Hb Hnb. unfold top50 in *.
  set (lt := λ y x : string * pyfloat, fltb x.2 y.2) in *.
  assert (StronglySorted (λ kv1 kv2, fleb kv2.2 kv1.2 = true)
            (sorted_by lt totals)) as Hs.
  { apply (sorted_by_sorted lt _ (λ kv, positive kv.2 = true)); [| | |done].
    - intros kv1 kv2 _ _. apply fltb_fleb.
    - intros kv1 kv2 H1 H2. by apply not_fltb_fleb.
    - intros kv1 kv2 kv3 H1 H2. by eapply fleb_trans. }
  rewrite <- (take_drop 50 (sorted_by lt totals)) in Hs.
  rewrite <- (sorted_by_perm lt totals) in Hb.
  rewrite <- (take_drop 50 (sorted_by lt totals)) in Hb.
  apply elem_of_app in Hb as [Hb|Hb]; [done|].
  apply (StronglySorted_app_1_elem_of _ _ _ (a, x) (b, y) Hs Ha Hb).
Qed.

Lemma top50_length (totals : list (string * pyfloat)) :
  (length (top50 totals) ≤ 50)%nat.
Proof. unfold top50. rewrite length_take. lia. Qed.

Lemma top50_subseteq (totals : list (string * pyfloat)) kv :
  kv ∈ top50 totals → kv ∈ totals.
Proof.
  unfold top50. intros (i & Hi & _)%elem_of_take.
  apply list_elem_of_lookup_2 in Hi. by rewrite sorted_by_perm in Hi.
Qed.

End document.

(** ** Properties of the aggregation pass and of its document *)

Section flow_claims.
Import Flow.

(** C1. For the three rows of the end-to-end scenario the pass gives
    assetTotals = {BTC: 150, ETH: 200} and the directed account flows
    (U2,U1) = 150 and (U2,U3) = 200, and the document has exactly two time
    buckets: 1000000000000 with eventCount 2 and notional 150, and
    1000000001000 with eventCount 1 and notional 200, the last one
    reporting a cumulativeNotional of 350. *)
Theorem scenario_three_rows :
  let st := accumulate scenario in
  asset_totals st = [("BTC", Fin 150); ("ETH", Fin 200)]
  ∧ flow_between st "U2" "U1" = Some (Fin 150)
  ∧ flow_between st "U2" "U3" = Some (Fin 200)
  ∧ ∃ doc b1 b2,
      export_flow_data scenario = Ok doc
      ∧ timeBuckets doc = [b1; b2]
      ∧ Summary.time b1 = 1000000000000
      ∧ Summary.eventCount b1 = 2%nat
      ∧ Summary.notionalInBucket b1 = Fin 150
      ∧ Summary.time b2 = 1000000001000
      ∧ Summary.eventCount b2 = 1%nat
      ∧ Summary.notionalInBucket b2 = Fin 200
      ∧ Summary.cumulativeNotional b2 = Fin 350
      ∧ accountFlows doc
        = [ {| source := "U2"; target := "U1"; notional := Fin 150 |};
            {| source := "U2"; target := "U3"; notional := Fin 200 |} ].
Proof.
  split_and!; [by vm_compute..|].
  eexists _, _, _. split_and!; [by vm_compute | by vm_compute | done..].
Qed.





(** C3. In the ordered time-bucket sequence of the document, the
    cumulativeNotional of bucket [i] is the sum of notionalInBucket over the
    buckets 0 to [i], the cumulativeNotional never decreases from one bucket
    to a later one, and the buckets come in ascending order of their key. *)
Theorem cumulative_notional_prefix_sums (df : list Row) (doc : Document) :
  export_flow_data df = Ok doc →
  let bl := timeBuckets doc in
  (∀ i b, bl !! i = Some b →
     Summary.cumulativeNotional b
     = fsum (Summary.notionalInBucket <$> take (S i) bl))
  ∧ (∀ i j b1 b2, (i ≤ j)%nat → bl !! i = Some b1 → bl !! j = Some b2 →
       fleb (Summary.cumulativeNotional b1) (Summary.cumulativeNotional b2) = true)
  ∧ StronglySorted Z.lt (Summary.time <$> bl).
Proof.
  intros (Hbl & _)%export_flow_data_Ok. simpl. unfold time_buckets_list in Hbl.
  split_and!.
  - intros i b Hi. by eapply buckets_loop_prefix.
  - destruct (buckets_loop_mono _ _ _ _ _ _ (fleb_refl (Fin 0) eq_refl)
                (sorted_keys_positive df) Hbl) as [Hall Hs].
    intros i j b1 b2 Hij H1 H2.
    destruct (decide (i = j)) as [->|Hne].
    + assert (b1 = b2) as -> by congruence.
      apply fleb_refl. by eapply (Forall_lookup_1 _ _ _ _ Hall).
    + by apply (StronglySorted_lookup_lt _ _ i j b1 b2 Hs); [lia|..].
  - rewrite (buckets_loop_times _ _ _ _ _ _ Hbl). apply sorted_keys_ascending.
Qed.

Lemma cumulative_notional_prefix_sums_witness :
  ∃ doc, export_flow_data scenario = Ok doc
    ∧ ∀ i b, timeBuckets doc !! i = Some b →
        Summary.cumulativeNotional b
        = fsum (Summary.notionalInBucket <$> take (S i) (timeBuckets doc)).
Proof.
  eexists. split; [by vm_compute|].
  apply (cumulative_notional_prefix_sums scenario). by vm_compute.
Defined.

(** C5. Every account-to-account edge of the document has both its source
    and its target among the accounts of the two top-50 lists (the top 50
    by totalOut and the top 50 by totalIn: each holds at most 50 accounts
    with their totals, and no account left out of a list has a greater total
    than one in it),
    so that an edge with an endpoint in neither list is not emitted; and an
    account of both lists can be the source of one emitted edge and the
    target of another. *)
Theorem account_edges_within_top_accounts (df : list Row) (doc : Document) :
  export_flow_data df = Ok doc →
  let top_out := liquidated (topAccounts doc) in
  let top_in := counterparties (topAccounts doc) in
  top_out = top50 (account_totals_out (accumulate df))
  ∧ top_in = top50 (account_totals_in (accumulate df))
  ∧ (length top_out ≤ 50)%nat ∧ (length top_in ≤ 50)%nat
  ∧ (∀ kv, kv ∈ top_out → kv ∈ account_totals_out (accumulate df))
  ∧ (∀ kv, kv ∈ top_in → kv ∈ account_totals_in (accumulate df))
  ∧ (∀ a x b y, (a, x) ∈ top_out →
       (b, y) ∈ account_totals_out (accumulate df) → (b, y) ∉ top_out →
       fleb y x = true)
  ∧ (∀ a x b y, (a, x) ∈ top_in →
       (b, y) ∈ account_totals_in (accumulate df) → (b, y) ∉ top_in →
       fleb y x = true)
  ∧ (∀ e, e ∈ accountFlows doc →
       (source e ∈ top_out.*1 ∨ source e ∈ top_in.*1)
       ∧ (target e ∈ top_out.*1 ∨ target e ∈ top_in.*1))
  ∧ (∀ s t, ¬ (s ∈ top_out.*1 ∨ s ∈ top_in.*1)
            ∨ ¬ (t ∈ top_out.*1 ∨ t ∈ top_in.*1) →
       ∀ e, e ∈ accountFlows doc → ¬ (source e = s ∧ target e = t))
  ∧ ∃ df' doc' a e1 e2,
      export_flow_data df' = Ok doc'
      ∧ a ∈ (liquidated (topAccounts doc')).*1
      ∧ a ∈ (counterparties (topAccounts doc')).*1
      ∧ e1 ∈ accountFlows doc' ∧ source e1 = a
      ∧ e2 ∈ accountFlows doc' ∧ target e2 = a.
Proof.
  intros (_ & _ & Hflows & Hout & Hin)%export_flow_data_Ok. simpl.
  rewrite Hflows, Hout, Hin.
  assert (∀ e, e ∈ account_flows_list (accumulate df) →
            (source e ∈ (top_liquidated (accumulate df)).*1
             ∨ source e ∈ (top_counterparties (accumulate df)).*1)
            ∧ (target e ∈ (top_liquidated (accumulate df)).*1
               ∨ target e ∈ (top_counterparties (accumulate df)).*1)) as Hedge.
  { intros e (Hs & Ht & _)%elem_of_account_flows_list.
    by rewrite <- !elem_of_top_accounts_set. }
  destruct (totals_positive df) as [Hpo Hpi].
  split_and!; try done; try apply top50_length; try apply top50_subseteq.
  - intros a x b y. by apply top50_dominates.
  - intros a x b y. by apply top50_dominates.
  - intros s t Hout' e He [<- <-]. destruct (Hedge e He). tauto.
  - exists mutual. eexists. exists "U1".
    exists {| source := "U1"; target := "U2"; notional := Fin 50 |},
           {| source := "U2"; target := "U1"; notional := Fin 100 |}.
    split; [by vm_compute|]. cbn [topAccounts liquidated counterparties accountFlows].
    split_and!; try done.
    + apply list_elem_of_In. vm_compute. tauto.
    + apply list_elem_of_In. vm_compute. tauto.
    + apply list_elem_of_In. vm_compute. tauto.
    + apply list_elem_of_In. vm_compute. tauto.
Qed.

Lemma account_edges_within_top_accounts_witness :
  ∃ doc, export_flow_data scenario = Ok doc
    ∧ ∀ e, e ∈ accountFlows doc →
        (source e ∈ (liquidated (topAccounts doc)).*1
         ∨ source e ∈ (counterparties (topAccounts doc)).*1)
        ∧ (target e ∈ (liquidated (topAccounts doc)).*1
           ∨ target e ∈ (counterparties (topAccounts doc)).*1).
Proof.
  eexists. split; [by vm_compute|].
  apply (account_edges_within_top_accounts scenario). by vm_compute.
Defined.

(** C9. The time range of the metadata runs from the least to the greatest
    [time] over all the rows of the table: every row lies within it, the
    rows stopped by the notional filter included, and both ends are the
    [time] of some row. *)
Theorem time_range_covers_all_rows (df : list Row) (doc : Document) :
  export_flow_data df = Ok doc →
  let range := Metadata.timeRange (metadata doc) in
  min_timestamp (accumulate df) = At (start range)
  ∧ max_timestamp (accumulate df) = At (end_ range)
  ∧ (∀ row, row ∈ df → start range ≤ time row ≤ end_ range)
  ∧ (∃ row, row ∈ df ∧ time row = start range)
  ∧ (∃ row, row ∈ df ∧ time row = end_ range).
Proof.
  intros (_ & Hmd & _)%export_flow_data_Ok.
  apply build_metadata_Ok in Hmd as (_ & Hlo & Hhi). simpl.
  destruct df as [|r0 df]; [done|].
  destruct (extremes (r0 :: df)) as (lo & hi & Hlo' & Hhi' & Hall & Hl & Hh);
    [done|].
  rewrite Hlo' in Hlo. rewrite Hhi' in Hhi.
  injection Hlo as <-. injection Hhi as <-. by split_and!.
Qed.

(** On [scenario_with_zero] the start of the range is the [time] of the
    first row, which the filter stops. *)
Lemma time_range_covers_all_rows_witness :
  ∃ doc, export_flow_data scenario_with_zero = Ok doc
    ∧ (skipped <$> scenario_with_zero) = [true; false; false; false]
    ∧ start (Metadata.timeRange (metadata doc)) = 999999999000
    ∧ ∀ row, row ∈ scenario_with_zero →
        start (Metadata.timeRange (metadata doc)) ≤ time row
        ≤ end_ (Metadata.timeRange (metadata doc)).
Proof.
  eexists. split; [by vm_compute|]. split; [by vm_compute|]. split; [done|].
  apply (time_range_covers_all_rows scenario_with_zero). by vm_compute.
Defined.

(** C10. The eventCount of the metadata is the number of rows of the
    table, while the eventCounts of the time buckets add up to the number of
    rows that got past the notional filter; so a table with a row of zero
    (or missing) notional has a metadata eventCount above the sum of the
    bucket eventCounts. *)
Theorem event_count_counts_all_rows (df : list Row) (doc : Document) :
  export_flow_data df = Ok doc →
  Metadata.eventCount (metadata doc) = length df
  ∧ sum_list_with Summary.eventCount (timeBuckets doc) = length (kept df)
  ∧ ((∃ row, row ∈ df ∧ zero_or_missing (adl_notional row)) →
       (sum_list_with Summary.eventCount (timeBuckets doc)
        < Metadata.eventCount (metadata doc))%nat).
Proof.
  intros (Hbl & Hmd & _)%export_flow_data_Ok.
  apply build_metadata_Ok in Hmd as (Hcount & _).
  apply sum_summaries in Hbl. simpl in *. split_and!; [done..|].
  intros (row & Hin & Hz%skipped_iff). rewrite Hbl, Hcount.
  unfold kept. apply list_elem_of_In in Hin.
  clear -Hin Hz. induction df as [|r df IH]; [done|].
  cbn [List.filter length]. destruct Hin as [->|Hin].
  - unfold passes at 1. rewrite Hz. cbn [negb].
    pose proof (List.filter_length_le passes df). lia.
  - specialize (IH Hin). destruct (passes r); simpl; lia.
Qed.

Lemma event_count_counts_all_rows_witness :
  ∃ doc, export_flow_data scenario_with_zero = Ok doc
    ∧ Metadata.eventCount (metadata doc) = 4%nat
    ∧ sum_list_with Summary.eventCount (timeBuckets doc) = 3%nat.
Proof.
  eexists. split; [by vm_compute|].
  destruct (event_count_counts_all_rows scenario_with_zero _ eq_refl)
    as (H1 & H2 & _).
  split; [exact H1 | exact H2].
Defined.

End flow_claims.

(** ** [export_adl_events_json.py] *)

Section timestamps.
Import PyLib Events.
Context (host : Host).

Lemma prefix_empty s : String.prefix EmptyString s = true.
Proof. by destruct s. Qed.

Lemma append_cons x (a b : string) :
  String.append (String x a) b = String x (String.append a b).
Proof. reflexivity. Qed.

Lemma append_assoc (a b c : string) :
  String.append a (String.append b c) = String.append (String.append a b) c.
Proof. induction a as [|x a IH]; [done|]. by rewrite !append_cons, IH. Qed.

(** Replacing a single character goes through a concatenation. *)
Lemma replace_Z_app new s1 s2 :
  Str.replace "Z" new (s1 ++ s2)%string
  = (Str.replace "Z" new s1 ++ Str.replace "Z" new s2)%string.
Proof.
  unfold Str.replace. induction s1 as [|c s1 IH]; [done|].
  rewrite append_cons.
  cbn [Str.replace_from String.prefix String.length Nat.sub].
  destruct (ascii_dec "Z" c); rewrite ?prefix_empty, IH; [|done].
  apply append_assoc.
Qed.

Lemma float_to_ms_below q :
  (q < inject_Z threshold)%Q →
  float_to_ms (Fin q) = Ok (Qtrunc (q * inject_Z 1000)).
Proof.
  intros Hq. unfold float_to_ms, of_int. cbn [fltb].
  destruct (Qle_bool (inject_Z threshold) q) eqn:E; [|done].
  apply Qle_bool_iff in E. exfalso. by apply (Qlt_not_le _ _ Hq).
Qed.

Lemma float_to_ms_above q :
  (inject_Z threshold <= q)%Q → float_to_ms (Fin q) = Ok (Qtrunc q).
Proof.
  intros Hq. unfold float_to_ms, of_int. cbn [fltb].
  apply Qle_bool_iff in Hq. by rewrite Hq.
Qed.


End timestamps.


Section sides.
Import PyLib Events.
Context (host : Host).

(** C8. [determine_side] consults the columns in a fixed order, and the
    first rule that matches decides.  (1) [side], lower-cased: containing
    "b", "buy" or "long" gives "long"; otherwise containing "a", "sell" or
    "short" gives "short".  (2) [direction], lower-cased: containing "long"
    gives "long", otherwise containing "short" gives "short".  (3) the sign
    of a numeric [position_size]: positive gives "long", negative gives
    "short".  (4) "long".  The five examples evaluate as stated. *)
Theorem determine_side_priority :
  (∀ row c, present row "side" = Some c →
     side_long (Str.lower (to_str host c)) = true →
     determine_side host row = Ok "long")
  ∧ (∀ row c, present row "side" = Some c →
       side_long (Str.lower (to_str host c)) = false →
       side_short (Str.lower (to_str host c)) = true →
       determine_side host row = Ok "short")
  ∧ (∀ row c, side_rule host row = None →
       present row "direction" = Some c →
       Str.contains "long" (Str.lower (to_str host c)) = true →
       determine_side host row = Ok "long")
  ∧ (∀ row c, side_rule host row = None →
       present row "direction" = Some c →
       Str.contains "long" (Str.lower (to_str host c)) = false →
       Str.contains "short" (Str.lower (to_str host c)) = true →
       determine_side host row = Ok "short")
  ∧ (∀ row n, side_rule host row = None → direction_rule host row = None →
       present row "position_size" = Some (CInt n) →
       determine_side host row = Ok (if n <? 0 then "short" else "long"))
  ∧ (∀ row x, side_rule host row = None → direction_rule host row = None →
       present row "position_size" = Some (CFloat x) →
       determine_side host row
       = Ok (if fltb (of_int 0) x then "long"
             else if fltb x (of_int 0) then "short" else "long"))
  ∧ (∀ row, side_rule host row = None → direction_rule host row = None →
       present row "position_size" = None →
       determine_side host row = Ok "long")
  ∧ determine_side host {[ "side" := CStr "B" ]} = Ok "long"
  ∧ determine_side host {[ "side" := CStr "A" ]} = Ok "short"
  ∧ determine_side host {[ "direction" := CStr "short" ]} = Ok "short"
  ∧ determine_side host {[ "position_size" := CInt (-5) ]} = Ok "short"
  ∧ determine_side host ∅ = Ok "long".
Proof.
  split_and!.
  - intros row c Hc Hl. unfold determine_side, side_rule. by rewrite Hc, Hl.
  - intros row c Hc Hl Hs. unfold determine_side, side_rule.
    by rewrite Hc, Hl, Hs.
  - intros row c Hside Hc Hl. unfold determine_side, direction_rule.
    by rewrite Hside, Hc, Hl.
  - intros row c Hside Hc Hl Hs. unfold determine_side, direction_rule.
    by rewrite Hside, Hc, Hl, Hs.
  - intros row n Hside Hdir Hc. unfold determine_side, position_rule.
    rewrite Hside, Hdir, Hc. cbn [cell_gt0 cell_lt0 mbind res_bind bind].
    destruct (Z.ltb_spec 0 n), (Z.ltb_spec n 0); try done. lia.
  - intros row x Hside Hdir Hc. unfold determine_side, position_rule.
    rewrite Hside, Hdir, Hc. cbn [cell_gt0 cell_lt0 mbind res_bind bind].
    by destruct (fltb (of_int 0) x), (fltb x (of_int 0)).
  - intros row Hside Hdir Hc. unfold determine_side, position_rule.
    by rewrite Hside, Hdir, Hc.
  - by vm_compute.
  - by vm_compute.
  - by vm_compute.
  - by vm_compute.
  - by vm_compute.
Qed.

End sides.

Lemma determine_side_priority_witness :
  Events.determine_side PyLib.sample_host
    {[ "side" := Events.CStr "Sell"; "direction" := Events.CStr "long";
       "position_size" := Events.CInt 3 ]}
  = Py.Ok "short".
Proof.
  eapply (determine_side_priority PyLib.sample_host); by vm_compute.
Defined.

Section normalizer.
Import PyLib Events.
Context (host : Host).

(** A row that yields an event has a timestamp and a notional that is not
    [<= 0], and the event carries both. *)
Lemma process_row_Some row e :
  process_row host row = Ok (Some e) →
  ∃ ts x,
    row_timestamp host row = Ok (Some ts)
    ∧ row_notional row = Ok (Some x)
    ∧ fleb x (of_int 0) = false
    ∧ timestamp e = ts ∧ notionalUsd e = x.
Proof.
  unfold process_row. simpl_res.
  destruct (row_timestamp host row) as [[ts|]|]; simpl_res; try done.
  destruct (row_notional row) as [[x|]|]; cbn [mbind res_bind bind notional_rejected]; try done.
  destruct (fleb x (of_int 0)) eqn:Hx; [done|].
  unfold make_event. simpl_res.
  destruct (determine_side host row); simpl_res; [|done].
  destruct (local_isoformat host ts); simpl_res; [|done].
  destruct (optional_float row "account_value_realtime");
    simpl_res; [|done].
  destruct (optional_float row "total_equity");
    simpl_res; [|done].
  destruct (optional_float row "leverage_realtime");
    simpl_res; [|done].
  destruct (optional_float row "closed_pnl");
    simpl_res; [|done].
  destruct (optional_float row "position_unrealized_pnl");
    simpl_res; [|done].
  intros [= <-]. by exists ts, x.
Qed.

(** A row that is dropped has no timestamp, or no notional above zero. *)
Lemma process_row_None row :
  process_row host row = Ok None →
  row_timestamp host row = Ok None
  ∨ ∃ ts n, row_timestamp host row = Ok (Some ts)
            ∧ row_notional row = Ok n ∧ notional_rejected n = true.
Proof.
  unfold process_row. simpl_res.
  destruct (row_timestamp host row) as [[ts|]|]; simpl_res; try done; [|by left].
  destruct (row_notional row) as [n|]; simpl_res; [|done].
  destruct (notional_rejected n) eqn:Hn; [right; by exists ts, n|].
  destruct n as [x|]; [|done].
  by destruct (make_event host row ts _ x).
Qed.

(** Without a timestamp, or with a rejected notional, a row is dropped. *)
Lemma process_row_dropped row :
  row_timestamp host row = Ok None
  ∨ (∃ ts n, row_timestamp host row = Ok (Some ts)
             ∧ row_notional row = Ok n ∧ notional_rejected n = true) →
  process_row host row = Ok None.
Proof.
  unfold process_row. simpl_res.
  intros [-> | (ts & n & -> & -> & Hn)]; simpl_res; [done|]. by rewrite Hn.
Qed.

(** The loop appends, in the order of the rows, the event of every row
    that yields one. *)
Lemma collect_Ok df collected :
  collect host df = Ok collected →
  ∃ outs, Forall2 (λ row o, process_row host row = Ok o) df outs
          ∧ collected = omap id outs.
Proof.
  revert collected. induction df as [|row df IH]; intros collected.
  - intros [= <-]. exists []. by split; [constructor|].
  - cbn [collect mbind res_bind bind].
    destruct (process_row host row) as [o|] eqn:Hrow; simpl_res; [|done].
    destruct (collect host df) as [rest|]; simpl_res; [|done].
    intros [= <-]. destruct (IH rest eq_refl) as (outs & Hall & ->).
    exists (o :: outs). split; [by constructor|]. by destruct o.
Qed.

Lemma collect_total df :
  Forall (λ row, ∃ o, process_row host row = Ok o) df →
  ∃ collected, collect host df = Ok collected.
Proof.
  induction 1 as [|row df [o Ho] _ [rest IH]]; [by eexists|].
  cbn [collect mbind res_bind bind]. rewrite Ho, IH. by eexists.
Qed.

(** What the script dumps is the collected list, stably sorted by
    timestamp. *)
Lemma events_Ok df evs :
  events host df = Ok evs →
  ∃ collected,
    collect host df = Ok collected
    ∧ evs ≡ₚ collected
    ∧ StronglySorted (λ a b, timestamp a ≤ timestamp b) evs
    ∧ ∀ t, List.filter (λ e, timestamp e =? t) evs
           = List.filter (λ e, timestamp e =? t) collected.
Proof.
  unfold events. simpl_res.
  destruct (collect host df) as [collected|]; simpl_res; [|done].
  intros [= <-]. exists collected. unfold sort_events. split_and!.
  - done.
  - apply sorted_by_perm.
  - apply (sorted_by_key_sorted timestamp).
  - intros t. apply (sorted_by_key_stable timestamp).
Qed.

(** A run that ends gives one event for each row that yields one, none
    for the rows dropped, sorted by timestamp with ties in the order of the
    rows. *)
Lemma events_spec df evs :
  events host df = Ok evs →
  ∃ outs,
    Forall2 (λ row o, process_row host row = Ok o) df outs
    ∧ evs ≡ₚ omap id outs
    ∧ StronglySorted (λ a b, timestamp a ≤ timestamp b) evs
    ∧ ∀ t, List.filter (λ e, timestamp e =? t) evs
           = List.filter (λ e, timestamp e =? t) (omap id outs).
Proof.
  intros (collected & (outs & Hall & ->)%collect_Ok & Hperm & Hs & Hst)%events_Ok.
  by exists outs.
Qed.

Lemma events_total df :
  Forall (λ row, ∃ o, process_row host row = Ok o) df →
  ∃ evs, events host df = Ok evs.
Proof.
  intros [collected Hc]%collect_total. unfold events.
  simpl_res. rewrite Hc. by eexists.
Qed.

(** A row whose [time] is NaN stops the loop. *)
Lemma process_row_nan_time row :
  row !! "time" = Some (CFloat NaN) → process_row host row = Raise ValueError.
Proof. intros Hrow. unfold process_row, row_timestamp. by rewrite Hrow. Qed.

Lemma collect_raises df1 row df2 e :
  process_row host row = Raise e →
  ∃ e', collect host (df1 ++ row :: df2) = Raise e'.
Proof.
  intros Hrow. induction df1 as [|r df1 [e' IH]]; simpl.
  - rewrite Hrow. by eexists.
  - simpl_res. rewrite IH.
    destruct (process_row host r); by eexists.
Qed.

(** C7 holds on the runs that end, and fails on the code as a statement
    about every table.  A run that ends emits exactly one event for each
    row with a timestamp and a notional above zero, drops the other rows and
    sorts the events by timestamp, stably.  But a row with a missing [time]
    (NaN, which is how pandas reads an empty cell) is not dropped:
    [parse_timestamp] takes it for a number and [int] raises on it, so the
    run ends without any output, also for the well-formed rows. *)
Theorem normalizer_aborts_on_missing_time :
  (∀ df1 row df2, row !! "time" = Some (CFloat NaN) →
     ∃ e, events host (df1 ++ row :: df2) = Raise e)
  ∧ parse_timestamp host (CFloat NaN) = Raise ValueError
  ∧ events sample_host missing_time = Raise ValueError
  ∧ (∃ e, events sample_host (take 1 missing_time) = Ok [e])
  ∧ (∀ df evs, events host df = Ok evs →
       ∃ outs,
         Forall2 (λ row o, process_row host row = Ok o) df outs
         ∧ (∀ row e, process_row host row = Ok (Some e) →
              ∃ x, row_timestamp host row = Ok (Some (timestamp e))
                   ∧ row_notional row = Ok (Some x)
                   ∧ fleb x (of_int 0) = false ∧ notionalUsd e = x)
         ∧ (∀ row, process_row host row = Ok None →
              row_timestamp host row = Ok None
              ∨ ∃ ts n, row_timestamp host row = Ok (Some ts)
                        ∧ row_notional row = Ok n
                        ∧ notional_rejected n = true)
         ∧ evs ≡ₚ omap id outs
         ∧ StronglySorted (λ a b, timestamp a ≤ timestamp b) evs
         ∧ ∀ t, List.filter (λ e, timestamp e =? t) evs
                = List.filter (λ e, timestamp e =? t) (omap id outs)).
Proof.
  split_and!.
  - intros df1 row df2 Hrow%process_row_nan_time.
    destruct (collect_raises df1 row df2 _ Hrow) as [e He].
    exists e. unfold events. simpl_res. by rewrite He.
  - done.
  - by vm_compute.
  - eexists. by vm_compute.
  - intros df evs (outs & Hall & Hperm & Hs & Hst)%events_spec.
    exists outs. split_and!; try done.
    + intros row e (ts & x & Hts & Hx & Hle & <- & <-)%process_row_Some.
      by exists (notionalUsd e).
    + apply process_row_None.
Qed.

End normalizer.

(** * Further properties of [export_flow_data.py] *)

(** ** Totals per key *)

(** Three dictionaries of the pass are filled in the same way, each under
    a key of its own: [asset_totals] under the coin, [account_totals_out]
    under the liquidated user and [account_totals_in] under the user. *)
Section keyed_totals.
Import Flow.
Context (key : Row → string) (proj : state → list (string * pyfloat)).
Hypothesis proj_init : proj init = [].
Hypothesis proj_step : ∀ st row,
  proj (step st row)
  = if skipped row then proj st
    else add_to (key row) (notional_of row) (proj st).

Lemma keyed_keys df a :
  a ∈ ODict.keys (proj (accumulate df)) ↔ a ∈ key <$> kept df.
Proof.
  induction df as [|row df IH] using rev_ind.
  - unfold accumulate. simpl. by rewrite proj_init.
  - rewrite accumulate_snoc, kept_snoc, proj_step.
    destruct (skipped row); [done|].
    unfold add_to. rewrite elem_of_keys_upd, IH, fmap_app, elem_of_app.
    change (key <$> [row]) with [key row]. rewrite list_elem_of_singleton. tauto.
Qed.

Lemma keyed_NoDup df : NoDup (ODict.keys (proj (accumulate df))).
Proof.
  induction df as [|row df IH] using rev_ind.
  - unfold accumulate. simpl. rewrite proj_init. constructor.
  - rewrite accumulate_snoc, proj_step. destruct (skipped row); [done|].
    by apply NoDup_keys_upd.
Qed.

Lemma keyed_positive df :
  Forall (λ kv, positive kv.2 = true) (proj (accumulate df)).
Proof.
  induction df as [|row df IH] using rev_ind.
  - unfold accumulate. simpl. rewrite proj_init. constructor.
  - rewrite accumulate_snoc, proj_step. destruct (skipped row) eqn:Hs; [done|].
    assert (positive (notional_of row) = true) as Hp.
    { rewrite skipped_positive in Hs. by destruct (positive _). }
    apply (Forall_upd (λ x, positive x = true)); [| |done].
    + by apply (positive_fadd (Fin 0)).
    + intros v Hv. by apply positive_fadd; [apply positive_nonneg|].
Qed.

Lemma keyed_sum df :
  fsum (ODict.values (proj (accumulate df))) ≈ fsum (notional_of <$> kept df).
Proof.
  induction df as [|row df IH] using rev_ind.
  - unfold accumulate. simpl. by rewrite proj_init.
  - rewrite accumulate_snoc, kept_snoc, proj_step. destruct (skipped row); [done|].
    rewrite fsum_values_add_to, fmap_app.
    change (notional_of <$> [row]) with [notional_of row].
    rewrite fsum_snoc. by rewrite IH.
Qed.

(** The total under a key is the sum of the notionals of the rows of that
    key that got past the filter, in the order of the table. *)
Lemma keyed_lookup df a :
  lookup_total (proj (accumulate df)) a
  ≈ fsum (notional_of <$> List.filter (has_key key a) (kept df)).
Proof.
  induction df as [|row df IH] using rev_ind.
  - unfold accumulate. simpl. by rewrite proj_init.
  - rewrite accumulate_snoc, kept_snoc, proj_step. destruct (skipped row); [done|].
    rewrite List.filter_app. cbn [List.filter]. unfold lookup_total, add_to in *.
    unfold has_key at 2. case_bool_decide as Hk.
    + rewrite <- Hk, get_upd_eq. cbn [default]. rewrite fmap_app.
      change (notional_of <$> [row]) with [notional_of row].
      rewrite fsum_snoc. rewrite <- Hk in IH. by rewrite IH.
    + rewrite get_upd_ne by done. by rewrite app_nil_r.
Qed.

End keyed_totals.

Section totals.
Import Flow.

Lemma asset_totals_step st row :
  asset_totals (step st row)
  = if skipped row then asset_totals st
    else add_to (coin row) (notional_of row) (asset_totals st).
Proof. unfold step. by destruct (skipped row). Qed.

Lemma account_totals_out_step st row :
  account_totals_out (step st row)
  = if skipped row then account_totals_out st
    else add_to (liquidated_user row) (notional_of row) (account_totals_out st).
Proof. unfold step. by destruct (skipped row). Qed.

Lemma account_totals_in_step st row :
  account_totals_in (step st row)
  = if skipped row then account_totals_in st
    else add_to (user row) (notional_of row) (account_totals_in st).
Proof. unfold step. by destruct (skipped row). Qed.

(** X1. After the pass, each of assetTotals, accountTotalsOut and
    accountTotalsIn holds, under a key, the sum of the notionals of the rows
    of that key that got past the filter (zero for a key without such a
    row); its keys are distinct and are exactly the keys of those rows. *)
Theorem totals_are_sums_per_key (df : list Row) (a : string) :
  let st := accumulate df in
  lookup_total (asset_totals st) a
  ≈ fsum (notional_of <$> List.filter (has_key coin a) (kept df))
  ∧ lookup_total (account_totals_out st) a
    ≈ fsum (notional_of <$> List.filter (has_key liquidated_user a) (kept df))
  ∧ lookup_total (account_totals_in st) a
    ≈ fsum (notional_of <$> List.filter (has_key user a) (kept df))
  ∧ (a ∈ ODict.keys (asset_totals st) ↔ a ∈ coin <$> kept df)
  ∧ (a ∈ ODict.keys (account_totals_out st) ↔ a ∈ liquidated_user <$> kept df)
  ∧ (a ∈ ODict.keys (account_totals_in st) ↔ a ∈ user <$> kept df)
  ∧ NoDup (ODict.keys (asset_totals st))
  ∧ NoDup (ODict.keys (account_totals_out st))
  ∧ NoDup (ODict.keys (account_totals_in st)).
Proof.
  simpl. split_and!.
  - by apply keyed_lookup; [|apply asset_totals_step].
  - by apply keyed_lookup; [|apply account_totals_out_step].
  - by apply keyed_lookup; [|apply account_totals_in_step].
  - by apply keyed_keys; [|apply asset_totals_step].
  - by apply keyed_keys; [|apply account_totals_out_step].
  - by apply keyed_keys; [|apply account_totals_in_step].
  - by apply (keyed_NoDup coin); [|apply asset_totals_step].
  - by apply (keyed_NoDup liquidated_user); [|apply account_totals_out_step].
  - by apply (keyed_NoDup user); [|apply account_totals_in_step].
Qed.


End totals.

(** ** The liquidated and the ADL'd side *)

Section two_sides.
Import Flow.

Lemma sides_equal df :
  liquidated_by_asset (accumulate df) = asset_totals (accumulate df)
  ∧ adld_by_asset (accumulate df) = asset_totals (accumulate df).
Proof.
  induction df as [|row df [IHl IHa]] using rev_ind; [done|].
  rewrite accumulate_snoc. unfold step.
  destruct (skipped row); cbn [liquidated_by_asset adld_by_asset asset_totals];
    [done|]. by rewrite IHl, IHa.
Qed.

(** In every bucket the two per-asset dictionaries are the same one, and
    its values add up to the notional of the bucket. *)
Lemma bucket_sides df :
  Forall (λ kb,
            Bucket.liquidatedByAsset kb.2 = Bucket.adldByAsset kb.2
            ∧ fsum (ODict.values (Bucket.liquidatedByAsset kb.2))
              ≈ Bucket.cumulativeNotional kb.2)
    (time_buckets (accumulate df)).
Proof.
  induction df as [|row df IH] using rev_ind; [constructor|].
  rewrite accumulate_snoc. unfold step.
  destruct (skipped row); cbn [time_buckets]; [done|].
  apply (Forall_upd (λ b, Bucket.liquidatedByAsset b = Bucket.adldByAsset b
                          ∧ fsum (ODict.values (Bucket.liquidatedByAsset b))
                            ≈ Bucket.cumulativeNotional b)); [| |done].
  - unfold bucket_add, Bucket.fresh.
    cbn [Bucket.liquidatedByAsset Bucket.adldByAsset Bucket.cumulativeNotional].
    split; [done|]. by rewrite fsum_values_add_to.
  - intros b [Heq Hsum]. unfold bucket_add.
    cbn [Bucket.liquidatedByAsset Bucket.adldByAsset Bucket.cumulativeNotional].
    split; [by rewrite Heq|]. by rewrite fsum_values_add_to, Hsum.
Qed.

Lemma bucket_at_sides df k :
  let b := bucket_at (time_buckets (accumulate df)) k in
  Bucket.liquidatedByAsset b = Bucket.adldByAsset b
  ∧ fsum (ODict.values (Bucket.liquidatedByAsset b)) ≈ Bucket.cumulativeNotional b.
Proof.
  simpl. unfold bucket_at.
  destruct (ODict.get _ k) as [b|] eqn:Hb; [|done]. simpl.
  apply get_Some_elem_of in Hb.
  pose proof (bucket_sides df) as Hall. rewrite Forall_forall in Hall.
  apply (Hall (k, b) Hb).
Qed.

(** One turn of the loop over the buckets, with every field. *)
Lemma buckets_loop_step tb k ks c cl ca bl :
  buckets_loop tb (k :: ks) c cl ca = Ok bl →
  let bucket := bucket_at tb k in
  let c' := fadd c (Bucket.cumulativeNotional bucket) in
  let cl' := fadd cl (fsum (ODict.values (Bucket.liquidatedByAsset bucket))) in
  let ca' := fadd ca (fsum (ODict.values (Bucket.adldByAsset bucket))) in
  ∃ iso b bl',
    bl = b :: bl'
    ∧ Calendar.utc_isoformat (k ÷ 1000) = Ok iso
    ∧ b = {| Summary.time := k;
             Summary.timeISO := Str.replace "+00:00" "Z" iso;
             Summary.cumulativeNotional := c';
             Summary.cumulativeLiquidated := cl';
             Summary.cumulativeAdld := ca';
             Summary.notionalInBucket := Bucket.cumulativeNotional bucket;
             Summary.eventCount := Bucket.eventCount bucket;
             Summary.liquidatedByAsset := Bucket.liquidatedByAsset bucket;
             Summary.adldByAsset := Bucket.adldByAsset bucket;
             Summary.assetFlows := bucket_edges (Bucket.assetFlows bucket) |}
    ∧ buckets_loop tb ks c' cl' ca' = Ok bl'.
Proof.
  cbn [buckets_loop].
  destruct (Calendar.utc_isoformat (k ÷ 1000)) as [iso|e]; [|done].
  simpl_res.
  destruct (buckets_loop tb ks _ _ _) as [bl'|e] eqn:Hrest; [|done].
  simpl_res. intros [= <-]. by eexists iso, _, bl'.
Qed.

(** Every entry of the series is made from the accumulator of its key. *)
Lemma buckets_loop_elem_of tb ks c cl ca bl b :
  buckets_loop tb ks c cl ca = Ok bl → b ∈ bl →
  Summary.time b ∈ ks
  ∧ Summary.notionalInBucket b
    = Bucket.cumulativeNotional (bucket_at tb (Summary.time b))
  ∧ Summary.eventCount b = Bucket.eventCount (bucket_at tb (Summary.time b))
  ∧ Summary.liquidatedByAsset b
    = Bucket.liquidatedByAsset (bucket_at tb (Summary.time b))
  ∧ Summary.adldByAsset b = Bucket.adldByAsset (bucket_at tb (Summary.time b))
  ∧ Summary.assetFlows b
    = bucket_edges (Bucket.assetFlows (bucket_at tb (Summary.time b))).
Proof.
  revert c cl ca bl. induction ks as [|k ks IH]; intros c cl ca bl.
  - intros [= <-]. by intros ?%elem_of_nil.
  - intros (iso & b' & bl' & -> & _ & Hb' & Hrest)%buckets_loop_step.
    intros [-> | Hin]%elem_of_cons.
    + rewrite Hb'. cbn. split_and!; try done. left.
    + destruct (IH _ _ _ _ Hrest Hin) as (Hk & H). split; [by right | done].
Qed.

Lemma buckets_loop_sides tb ks c cl bl :
  cl ≈ c →
  Forall (λ k, Bucket.liquidatedByAsset (bucket_at tb k)
               = Bucket.adldByAsset (bucket_at tb k)
               ∧ fsum (ODict.values (Bucket.liquidatedByAsset (bucket_at tb k)))
                 ≈ Bucket.cumulativeNotional (bucket_at tb k)) ks →
  buckets_loop tb ks c cl cl = Ok bl →
  Forall (λ b, Summary.cumulativeLiquidated b = Summary.cumulativeAdld b
               ∧ Summary.cumulativeLiquidated b ≈ Summary.cumulativeNotional b) bl.
Proof.
  revert c cl bl. induction ks as [|k ks IH]; intros c cl bl Hc Hks.
  - intros [= <-]. constructor.
  - apply Forall_cons in Hks as [[Heq Hsum] Hks].
    intros (iso & b & bl' & -> & _ & -> & Hrest)%buckets_loop_step.
    rewrite <- Heq in Hrest. constructor.
    + cbn. split; [by rewrite Heq|]. by rewrite Hc, Hsum.
    + eapply IH; [|exact Hks|exact Hrest]. by rewrite Hc, Hsum.
Qed.



End two_sides.

(** ** What a bucket holds *)

Section bucket_contents.
Import Flow.

Lemma bucket_at_upd f k' k (d : list (Z * Bucket.t)) :
  bucket_at (ODict.upd f Bucket.fresh k' d) k
  = if decide (k' = k) then f (bucket_at d k) else bucket_at d k.
Proof.
  unfold bucket_at. destruct (decide (k' = k)) as [->|Hne].
  - by rewrite get_upd_eq.
  - by rewrite get_upd_ne.
Qed.

(** The accumulator of a second counts and adds up the rows of that second
    that got past the filter. *)
Lemma bucket_at_contents df k :
  let b := bucket_at (time_buckets (accumulate df)) k in
  Bucket.eventCount b = length (List.filter (in_second k) (kept df))
  ∧ Bucket.cumulativeNotional b
    ≈ fsum (notional_of <$> List.filter (in_second k) (kept df)).
Proof.
  simpl. induction df as [|row df [IHc IHn]] using rev_ind; [done|].
  rewrite accumulate_snoc, kept_snoc. unfold step.
  destruct (skipped row); cbn [time_buckets]; [done|].
  rewrite bucket_at_upd, List.filter_app. cbn [List.filter].
  unfold in_second at 2 4. destruct (decide (bucket_key (time row) = k)) as [Hk|Hk].
  - rewrite bool_decide_eq_true_2 by done. unfold bucket_add.
    cbn [Bucket.eventCount Bucket.cumulativeNotional]. split.
    + rewrite IHc, length_app. simpl. lia.
    + rewrite fmap_app. change (notional_of <$> [row]) with [notional_of row].
      by rewrite fsum_snoc, IHn.
  - rewrite bool_decide_eq_false_2 by done. by rewrite !app_nil_r.
Qed.

Lemma time_buckets_list_keys df bl b :
  time_buckets_list (accumulate df) = Ok bl → b ∈ bl →
  ∃ row, row ∈ df ∧ skipped row = false ∧ bucket_key (time row) = Summary.time b.
Proof.
  intros Hbl Hb. unfold time_buckets_list in Hbl.
  destruct (buckets_loop_elem_of _ _ _ _ _ _ _ Hbl Hb) as (Hk & _).
  by apply sorted_keys_elem_of, bucket_keys in Hk.
Qed.

Lemma kept_elem_of df row : row ∈ kept df ↔ row ∈ df ∧ skipped row = false.
Proof.
  unfold kept, passes. rewrite !list_elem_of_In, filter_In, negb_true_iff. done.
Qed.

(** X4. A time bucket of the document holds exactly the rows of its
    second that got past the filter: its eventCount is their number, its
    notionalInBucket is the sum of their notionals; so no bucket is empty
    and none has a notional of zero. *)
Theorem bucket_holds_the_rows_of_its_second (df : list Row) (doc : Document) :
  export_flow_data df = Ok doc →
  ∀ b, b ∈ timeBuckets doc →
    let rows := List.filter (in_second (Summary.time b)) (kept df) in
    Summary.eventCount b = length rows
    ∧ Summary.notionalInBucket b ≈ fsum (notional_of <$> rows)
    ∧ (1 ≤ Summary.eventCount b)%nat
    ∧ positive (Summary.notionalInBucket b) = true.
Proof.
  intros (Hbl & _)%export_flow_data_Ok b Hb. simpl in *.
  destruct (time_buckets_list_keys _ _ _ Hbl Hb) as (row & Hin & Hs & Hk).
  unfold time_buckets_list in Hbl.
  destruct (buckets_loop_elem_of _ _ _ _ _ _ _ Hbl Hb) as (Hkey & Hn & Hc & _).
  destruct (bucket_at_contents df (Summary.time b)) as [Hcount Hsum].
  simpl in *. rewrite Hn, Hc. split_and!; try done.
  - rewrite Hcount.
    assert (row ∈ List.filter (in_second (Summary.time b)) (kept df)) as Hrow.
    { apply list_elem_of_In, filter_In. split.
      - by apply list_elem_of_In, kept_elem_of.
      - unfold in_second. by apply bool_decide_eq_true_2. }
    destruct (List.filter _ _); [by apply elem_of_nil in Hrow | simpl; lia].
  - pose proof (sorted_keys_positive df) as Hpos.
    rewrite Forall_forall in Hpos. by apply Hpos.
Qed.

Lemma bucket_holds_the_rows_of_its_second_witness :
  ∃ doc, export_flow_data scenario = Ok doc
    ∧ ∀ b, b ∈ timeBuckets doc →
        Summary.eventCount b
        = length (List.filter (in_second (Summary.time b)) (kept scenario)).
Proof.
  eexists. split; [by vm_compute|]. intros b Hb.
  by apply (bucket_holds_the_rows_of_its_second scenario _ eq_refl b Hb).
Defined.

(** The key of a second: a multiple of 1000 on the side of zero. *)
Lemma bucket_key_bounds t :
  (1000 | bucket_key t)
  ∧ (0 ≤ t → bucket_key t ≤ t < bucket_key t + 1000)
  ∧ (t ≤ 0 → bucket_key t - 1000 < t ≤ bucket_key t)
  ∧ (bucket_key t = 0 ↔ -1000 < t < 1000).
Proof.
  unfold bucket_key. split_and!.
  - by apply Z.divide_factor_r.
  - intros Ht. Z.to_euclidean_division_equations. lia.
  - intros Ht. Z.to_euclidean_division_equations. lia.
  - Z.to_euclidean_division_equations. lia.
Qed.

(** X5. The key of a time bucket is the timestamp cut down to a multiple
    of 1000 towards zero, not to the nearest second: a row of a timestamp
    from zero on falls in the bucket that starts at or before it, a row
    before 1970 in the bucket at or after it, and the bucket 0 takes the
    two seconds around zero.  Every row that got past the filter has its
    bucket in the document. *)
Theorem every_row_has_its_bucket (df : list Row) (doc : Document) :
  export_flow_data df = Ok doc →
  (∀ b, b ∈ timeBuckets doc → (1000 | Summary.time b))
  ∧ (∀ row, row ∈ df → skipped row = false →
       ∃ b, b ∈ timeBuckets doc
            ∧ Summary.time b = bucket_key (time row)
            ∧ (0 ≤ time row → Summary.time b ≤ time row < Summary.time b + 1000)
            ∧ (time row ≤ 0 → Summary.time b - 1000 < time row ≤ Summary.time b))
  ∧ (∀ t, bucket_key t = 0 ↔ -1000 < t < 1000).
Proof.
  intros (Hbl & _)%export_flow_data_Ok. simpl in *. split_and!.
  - intros b Hb.
    destruct (time_buckets_list_keys _ _ _ Hbl Hb) as (row & _ & _ & <-).
    apply bucket_key_bounds.
  - intros row Hin Hs. unfold time_buckets_list in Hbl.
    assert (bucket_key (time row) ∈ Summary.time <$> timeBuckets doc) as Hk.
    { rewrite (buckets_loop_times _ _ _ _ _ _ Hbl).
      apply sorted_keys_elem_of, bucket_keys. by exists row. }
    apply list_elem_of_fmap in Hk as (b & Hkb & Hb).
    exists b. rewrite <- Hkb. split_and!; try done; apply bucket_key_bounds.
  - intros t. apply bucket_key_bounds.
Qed.

Lemma every_row_has_its_bucket_witness :
  ∃ doc, export_flow_data scenario = Ok doc
    ∧ ∀ b, b ∈ timeBuckets doc → (1000 | Summary.time b).
Proof.
  eexists. split; [by vm_compute|].
  apply (every_row_has_its_bucket scenario). by vm_compute.
Defined.

End bucket_contents.

(** ** The series against the totals *)

Section series_total.
Import Flow.

Lemma fsum_Permutation l1 l2 : l1 ≡ₚ l2 → fsum l1 ≈ fsum l2.
Proof.
  induction 1 as [|x l1 l2 _ IH|x y l|l1 l2 l3 _ IH1 _ IH2].
  - done.
  - by rewrite !fsum_cons, IH.
  - rewrite !fsum_cons, <- !fadd_assoc.
    apply fadd_proper; [apply fadd_comm | done].
  - by rewrite IH1.
Qed.

Lemma fsum_notional_upd f k (d : list (Z * Bucket.t)) x :
  (∀ b, Bucket.cumulativeNotional (f b) = fadd (Bucket.cumulativeNotional b) x) →
  fsum (Bucket.cumulativeNotional <$> ODict.values (ODict.upd f Bucket.fresh k d))
  ≈ fadd (fsum (Bucket.cumulativeNotional <$> ODict.values d)) x.
Proof.
  intros Hf. unfold ODict.values. induction d as [|[k' b] d IH]; simpl.
  - rewrite Hf, fsum_cons. unfold fsum; simpl. by rewrite fadd_0_r.
  - destruct (decide (k = k')) as [->|Hne]; simpl.
    + rewrite Hf, !fsum_cons, !fadd_assoc.
      apply fadd_proper; [done | apply fadd_comm].
    + rewrite !fsum_cons, IH. by rewrite fadd_assoc.
Qed.

Lemma fsum_buckets df :
  fsum (Bucket.cumulativeNotional <$> ODict.values (time_buckets (accumulate df)))
  ≈ fsum (notional_of <$> kept df).
Proof.
  induction df as [|row df IH] using rev_ind; [done|].
  rewrite accumulate_snoc, kept_snoc. unfold step.
  destruct (skipped row); cbn [time_buckets]; [done|].
  rewrite fsum_notional_upd by done. rewrite fmap_app.
  change (notional_of <$> [row]) with [notional_of row].
  by rewrite fsum_snoc, IH.
Qed.

Lemma buckets_loop_notionals tb ks c cl ca bl :
  buckets_loop tb ks c cl ca = Ok bl →
  Summary.notionalInBucket <$> bl
  = (λ k, Bucket.cumulativeNotional (bucket_at tb k)) <$> ks.
Proof.
  revert c cl ca bl. induction ks as [|k ks IH]; intros c cl ca bl.
  - by intros [= <-].
  - intros (iso & b & bl' & -> & _ & -> & Hrest)%buckets_loop_step.
    rewrite !fmap_cons. cbn [Summary.notionalInBucket]. f_equal. eauto.
Qed.

Lemma fsum_series df bl :
  time_buckets_list (accumulate df) = Ok bl →
  fsum (Summary.notionalInBucket <$> bl) ≈ fsum (notional_of <$> kept df).
Proof.
  intros Hbl. unfold time_buckets_list in Hbl.
  rewrite (buckets_loop_notionals _ _ _ _ _ _ Hbl).
  set (tb := time_buckets (accumulate df)).
  transitivity (fsum (Bucket.cumulativeNotional <$> (bucket_at tb <$> sorted_keys tb))).
  { by rewrite <- list_fmap_compose. }
  assert (bucket_at tb <$> sorted_keys tb ≡ₚ ODict.values tb) as Hperm.
  { rewrite <- bucket_at_keys by apply NoDup_bucket_keys.
    unfold sorted_keys. by rewrite sorted_by_perm. }
  rewrite (fsum_Permutation _ _ (fmap_Permutation Bucket.cumulativeNotional _ _ Hperm)).
  apply fsum_buckets.
Qed.



End series_total.

(** ** The statistics of the metadata *)

Section statistics.
Import Flow.

Lemma build_metadata_fields df st md :
  build_metadata df st = Ok md →
  Metadata.totalNotionalUsd md = fsum (ODict.values (asset_totals st))
  ∧ Metadata.uniqueAssets md = length (asset_totals st)
  ∧ Metadata.uniqueAccounts md = unique_accounts st
  ∧ durationMinutes (Metadata.timeRange md)
    = Fin (inject_Z (end_ (Metadata.timeRange md) - start (Metadata.timeRange md))
           / inject_Z (60 * 1000)).
Proof.
  unfold build_metadata.
  destruct (int_of_bound (min_timestamp st)); [|done].
  destruct (int_of_bound (max_timestamp st)); [|done].
  simpl_res. by intros [= <-].
Qed.

Lemma keyed_set key proj df :
  proj init = [] →
  (∀ st row, proj (step st row)
             = if skipped row then proj st
               else add_to (key row) (notional_of row) (proj st)) →
  (list_to_set (ODict.keys (proj (accumulate df))) : gset string)
  = list_to_set (key <$> kept df).
Proof.
  intros Hi Hs. apply set_eq. intros a. rewrite !elem_of_list_to_set.
  by apply keyed_keys.
Qed.

Lemma size_list_to_set_le (l : list string) :
  (size (list_to_set l : gset string) ≤ length l)%nat.
Proof.
  induction l as [|x l IH]; [done|].
  cbn [list_to_set length]. rewrite size_union_alt, size_singleton.
  assert (size (list_to_set l ∖ {[x]} : gset string)
          ≤ size (list_to_set l : gset string))%nat.
  { apply subseteq_size. by intros y [? _]%elem_of_difference. }
  lia.
Qed.

(** X7. uniqueAssets is the number of distinct coins among the rows that
    got past the filter, and uniqueAccounts the number of distinct accounts
    among their two user columns, an account that occurs on both sides being
    counted once; so neither counts an asset or an account that only occurs
    in filtered rows. *)
Theorem unique_counts_are_set_sizes (df : list Row) (doc : Document) :
  export_flow_data df = Ok doc →
  Metadata.uniqueAssets (metadata doc)
  = size (list_to_set (coin <$> kept df) : gset string)
  ∧ Metadata.uniqueAccounts (metadata doc)
    = size ((list_to_set (user <$> kept df) : gset string)
            ∪ list_to_set (liquidated_user <$> kept df))
  ∧ (Metadata.uniqueAssets (metadata doc) ≤ length (kept df))%nat
  ∧ (Metadata.uniqueAccounts (metadata doc) ≤ 2 * length (kept df))%nat.
Proof.
  intros (_ & (_ & Hassets & Haccounts & _)%build_metadata_fields & _)%export_flow_data_Ok.
  simpl in *.
  assert (Metadata.uniqueAssets (metadata doc)
          = size (list_to_set (coin <$> kept df) : gset string)) as Ha.
  { rewrite Hassets.
    rewrite <- (keyed_set coin asset_totals df eq_refl asset_totals_step).
    rewrite size_list_to_set
      by (by apply (keyed_NoDup coin); [|apply asset_totals_step]).
    unfold ODict.keys. by rewrite length_fmap. }
  assert (Metadata.uniqueAccounts (metadata doc)
          = size ((list_to_set (user <$> kept df) : gset string)
                  ∪ list_to_set (liquidated_user <$> kept df))) as Hu.
  { rewrite Haccounts. unfold unique_accounts.
    rewrite (keyed_set user account_totals_in df eq_refl account_totals_in_step).
    by rewrite (keyed_set liquidated_user account_totals_out df eq_refl
                  account_totals_out_step). }
  split_and!; [done | done | |].
  - rewrite Ha. etrans; [apply size_list_to_set_le|]. by rewrite length_fmap.
  - rewrite Hu, size_union_alt.
    pose proof (size_list_to_set_le (user <$> kept df)) as H1.
    pose proof (size_list_to_set_le (liquidated_user <$> kept df)) as H2.
    rewrite length_fmap in H1, H2.
    assert (size (list_to_set (liquidated_user <$> kept df)
                  ∖ (list_to_set (user <$> kept df) : gset string))
            ≤ size (list_to_set (liquidated_user <$> kept df) : gset string))%nat.
    { apply subseteq_size. by intros y [? _]%elem_of_difference. }
    lia.
Qed.

Lemma unique_counts_are_set_sizes_witness :
  ∃ doc, export_flow_data mutual = Ok doc
    ∧ Metadata.uniqueAccounts (metadata doc)
      = size ((list_to_set (user <$> kept mutual) : gset string)
              ∪ list_to_set (liquidated_user <$> kept mutual)).
Proof.
  eexists. split; [by vm_compute|].
  apply (unique_counts_are_set_sizes mutual). by vm_compute.
Defined.



Lemma utc_isoformat_in_range secs iso :
  Calendar.utc_isoformat secs = Ok iso → in_datetime_range secs.
Proof.
  unfold Calendar.utc_isoformat, in_datetime_range.
  destruct (Z.ltb_spec secs Calendar.min_second),
           (Z.ltb_spec Calendar.max_second secs); simpl; done.
Qed.

Lemma buckets_loop_range tb ks c cl ca bl :
  buckets_loop tb ks c cl ca = Ok bl →
  Forall (λ k, in_datetime_range (k ÷ 1000)) ks.
Proof.
  revert c cl ca bl. induction ks as [|k ks IH]; intros c cl ca bl; [constructor|].
  intros (iso & b & bl' & _ & Hiso & _ & Hrest)%buckets_loop_step.
  constructor; [by eapply utc_isoformat_in_range | eauto].
Qed.

(** X9. When the export completes.  On an empty table it raises the
    OverflowError of [int(float('inf'))] at line 204.  On any other table it
    completes exactly when every row that got past the filter has its
    second within the years 1 to 9999; rows stopped by the filter are never
    looked at for this, and a table of filtered rows only gives a document
    without buckets and edges. *)
Theorem export_completes_iff (df : list Row) :
  (df = [] → export_flow_data df = Raise OverflowError)
  ∧ ((∃ doc, export_flow_data df = Ok doc)
     ↔ df ≠ [] ∧ ∀ row, row ∈ kept df → in_datetime_range (time row ÷ 1000))
  ∧ (df ≠ [] → kept df = [] →
     ∃ doc, export_flow_data df = Ok doc
       ∧ timeBuckets doc = [] ∧ assetFlows doc = [] ∧ assetStats doc = []
       ∧ accountFlows doc = []
       ∧ liquidated (topAccounts doc) = []
       ∧ counterparties (topAccounts doc) = []
       ∧ Metadata.totalNotionalUsd (metadata doc) = Fin 0
       ∧ Metadata.eventCount (metadata doc) = length df).
Proof.
  split_and!.
  - by intros ->.
  - split.
    + intros [doc Hdoc]. split.
      * by intros ->.
      * intros row [Hin Hs]%kept_elem_of.
        apply export_flow_data_Ok in Hdoc as (Hbl & _). simpl in Hbl.
        unfold time_buckets_list in Hbl. apply buckets_loop_range in Hbl.
        rewrite Forall_forall in Hbl.
        assert (bucket_key (time row) ∈ sorted_keys (time_buckets (accumulate df)))
          as Hk.
        { apply sorted_keys_elem_of, bucket_keys. by exists row. }
        apply Hbl in Hk. unfold bucket_key in Hk.
        by rewrite Z.quot_mul in Hk.
    + intros [Hne Hrange]. apply export_flow_data_total; [done|].
      intros row Hin Hs. apply Hrange. by apply kept_elem_of.
  - intros Hne Hk.
    destruct (accumulate_kept df) as (Haf & Hat & _ & _ & Hacf & Hin & Hout & Htb).
    rewrite Hk in Haf, Hat, Hacf, Hin, Hout, Htb.
    change (accumulate []) with init in *. simpl in Haf, Hat, Hacf, Hin, Hout, Htb.
    destruct (extremes df Hne) as (lo & hi & Hlo & Hhi & _).
    unfold export_flow_data, time_buckets_list, build_metadata.
    rewrite Htb, Hlo, Hhi. cbn [sorted_keys ODict.keys fmap list_fmap sorted_by
      foldr buckets_loop int_of_bound]. simpl_res.
    eexists. split; [done|].
    cbn [timeBuckets assetFlows assetStats accountFlows topAccounts liquidated
         counterparties metadata Metadata.totalNotionalUsd Metadata.eventCount].
    unfold asset_stats, account_flows_list, top_liquidated, top_counterparties.
    rewrite Haf, Hat, Hacf, Hin, Hout. done.
Qed.

Lemma export_completes_iff_witness :
  export_flow_data [] = Raise OverflowError
  ∧ ∃ doc, export_flow_data all_filtered = Ok doc ∧ timeBuckets doc = [].
Proof.
  split.
  - by apply (export_completes_iff []).
  - destruct (export_completes_iff all_filtered) as (_ & _ & Hall).
    destruct Hall as (doc & Hdoc & Hbl & _); [done | done |].
    by exists doc.
Defined.

End statistics.

(** ** Asset flows and asset statistics *)

Section asset_edges.
Import Flow.

Lemma export_flow_data_assets df doc :
  export_flow_data df = Ok doc →
  assetFlows doc = asset_flows_list df (asset_flows (accumulate df))
  ∧ assetStats doc = asset_stats df (accumulate df).
Proof.
  unfold export_flow_data.
  destruct (time_buckets_list _) as [tbl|]; [|done]. simpl_res.
  destruct (build_metadata _ _) as [md|]; [|done]. simpl_res.
  by intros [= <-].
Qed.

Lemma add_to2_self_loop a x (d : list (string * pyfloat)) :
  add_to2 a a x (self_loop <$> d) = self_loop <$> add_to a x d.
Proof.
  unfold add_to2, add_to. induction d as [|[k v] d IH]; [done|].
  rewrite fmap_cons. unfold self_loop at 1. cbn [fst snd ODict.upd].
  destruct (decide (a = k)) as [->|Hne].
  - rewrite fmap_cons. unfold self_loop at 2. by cbn [fst snd ODict.upd].
  - by rewrite fmap_cons, IH.
Qed.

(** Line 89 only ever writes [asset_flows[asset][asset]]. *)
Lemma asset_flows_self_loops df :
  asset_flows (accumulate df) = self_loop <$> asset_totals (accumulate df).
Proof.
  induction df as [|row df IH] using rev_ind; [done|].
  rewrite accumulate_snoc. unfold step.
  destruct (skipped row); cbn [asset_flows asset_totals]; [done|].
  by rewrite IH, add_to2_self_loop.
Qed.

Lemma bucket_self_loops df :
  Forall (λ kb,
            Bucket.assetFlows kb.2 = self_loop <$> Bucket.liquidatedByAsset kb.2
            ∧ Forall (λ kv, positive kv.2 = true) (Bucket.liquidatedByAsset kb.2))
    (time_buckets (accumulate df)).
Proof.
  induction df as [|row df IH] using rev_ind; [constructor|].
  rewrite accumulate_snoc. unfold step.
  destruct (skipped row) eqn:Hs; cbn [time_buckets]; [done|].
  assert (positive (notional_of row) = true) as Hp.
  { rewrite skipped_positive in Hs. by destruct (positive _). }
  apply (Forall_upd
           (λ b, Bucket.assetFlows b = self_loop <$> Bucket.liquidatedByAsset b
                 ∧ Forall (λ kv, positive kv.2 = true) (Bucket.liquidatedByAsset b)));
    [| |done].
  - unfold bucket_add, Bucket.fresh.
    cbn [Bucket.assetFlows Bucket.liquidatedByAsset]. split.
    + by rewrite <- add_to2_self_loop.
    + apply (Forall_upd (λ x, positive x = true)); [| |constructor].
      * by apply (positive_fadd (Fin 0)).
      * intros v Hv. by apply positive_fadd; [apply positive_nonneg|].
  - intros b [Heq Hpos]. unfold bucket_add.
    cbn [Bucket.assetFlows Bucket.liquidatedByAsset]. split.
    + by rewrite Heq, add_to2_self_loop.
    + apply (Forall_upd (λ x, positive x = true)); [| |done].
      * by apply (positive_fadd (Fin 0)).
      * intros v Hv. by apply positive_fadd; [apply positive_nonneg|].
Qed.

Lemma asset_flows_list_self_loops df (d : list (string * pyfloat)) :
  Forall (λ kv, positive kv.2 = true) d →
  asset_flows_list df (self_loop <$> d)
  = (λ kv, {| ae_source := kv.1; ae_target := kv.1; ae_notional := kv.2;
              ae_count := edge_count df kv.1 |}) <$> d.
Proof.
  unfold asset_flows_list. induction 1 as [|[k v] d Hv _ IH]; [done|].
  rewrite !fmap_cons. cbn [flat_map self_loop fst snd] in *.
  rewrite Hv, IH. done.
Qed.

Lemma bucket_edges_self_loops (d : list (string * pyfloat)) :
  Forall (λ kv, positive kv.2 = true) d →
  bucket_edges (self_loop <$> d)
  = (λ kv, {| source := kv.1; target := kv.1; notional := kv.2 |}) <$> d.
Proof.
  unfold bucket_edges. induction 1 as [|[k v] d Hv _ IH]; [done|].
  rewrite !fmap_cons. cbn [flat_map self_loop fst snd] in *.
  rewrite Hv, IH. done.
Qed.

Lemma edge_count_kept df a :
  edge_count df a = length (List.filter (has_key coin a) (kept df)).
Proof.
  unfold edge_count, kept, passes, has_key.
  induction df as [|row df IH]; [done|].
  cbn [List.filter]. rewrite skipped_positive, negb_involutive.
  destruct (positive (notional_of row)); cbn [List.filter].
  - rewrite andb_true_r. destruct (bool_decide _); simpl; by rewrite IH.
  - by rewrite andb_false_r.
Qed.

(** Rows counted once per key: over distinct keys that cover the rows, the
    numbers of rows per key add up to the number of rows. *)
Lemma count_by_key (key : Row → string) (ks : list string) (l : list Row) :
  NoDup ks → (∀ row, row ∈ l → key row ∈ ks) →
  sum_list_with (λ k, length (List.filter (has_key key k) l)) ks = length l.
Proof.
  intros Hnd. induction l as [|row l IH]; intros Hcov.
  - clear. induction ks as [|k ks IHk]; [done|]. by cbn [sum_list_with].
  - assert (∀ ks', NoDup ks' →
              sum_list_with (λ k, length (List.filter (has_key key k) (row :: l))) ks'
              = ((if bool_decide (key row ∈ ks') then 1 else 0)
                 + sum_list_with (λ k, length (List.filter (has_key key k) l)) ks')%nat)
      as Hsplit.
    { clear. induction ks' as [|k ks' IHk]; [done|].
      intros [Hk Hnd]%NoDup_cons. cbn [sum_list_with].
      rewrite IHk by done. cbn [List.filter]. unfold has_key at 1.
      destruct (decide (key row = k)) as [<-|Hne].
      - rewrite bool_decide_eq_true_2 by done.
        rewrite (bool_decide_eq_true_2 (key row ∈ key row :: ks')) by left.
        rewrite (bool_decide_eq_false_2 (key row ∈ ks')) by done. simpl. lia.
      - rewrite bool_decide_eq_false_2 by done.
        destruct (decide (key row ∈ ks')) as [Hin|Hnin].
        + rewrite !bool_decide_eq_true_2; [lia | by right | done].
        + rewrite !bool_decide_eq_false_2; [lia | | done].
          by intros [?|?]%elem_of_cons. }
    rewrite Hsplit by done.
    rewrite bool_decide_eq_true_2 by (apply Hcov; left).
    rewrite IH; [done|]. intros r Hr. apply Hcov. by right.
Qed.

(** X10. Every asset flow is a loop from an asset to itself.  The
    document's assetFlows has one edge per asset, in the order of
    assetTotals, whose notional is the asset's total and whose count is the
    number of rows of the asset that got past the filter; the counts add up
    to the number of such rows; and the assetFlows of a time bucket are the
    loops of its liquidatedByAsset. *)
Theorem asset_flows_are_self_loops (df : list Row) (doc : Document) :
  export_flow_data df = Ok doc →
  assetFlows doc
  = (λ kv, {| ae_source := kv.1; ae_target := kv.1; ae_notional := kv.2;
              ae_count := length (List.filter (has_key coin kv.1) (kept df)) |})
    <$> asset_totals (accumulate df)
  ∧ sum_list_with ae_count (assetFlows doc) = length (kept df)
  ∧ (∀ b, b ∈ timeBuckets doc →
       Summary.assetFlows b
       = (λ kv, {| source := kv.1; target := kv.1; notional := kv.2 |})
         <$> Summary.liquidatedByAsset b).
Proof.
  intros Hdoc.
  pose proof (export_flow_data_assets _ _ Hdoc) as [Hflows _].
  apply export_flow_data_Ok in Hdoc as (Hbl & _). simpl in Hbl.
  assert (assetFlows doc
          = (λ kv, {| ae_source := kv.1; ae_target := kv.1; ae_notional := kv.2;
                      ae_count := length (List.filter (has_key coin kv.1) (kept df)) |})
            <$> asset_totals (accumulate df)) as Heq.
  { rewrite Hflows, asset_flows_self_loops.
    rewrite asset_flows_list_self_loops
      by (by apply (keyed_positive coin); [|apply asset_totals_step]).
    apply list_fmap_ext. intros _ kv _. by rewrite edge_count_kept. }
  split_and!; [done| |].
  - rewrite Heq, sum_list_with_fmap. cbn [ae_count].
    transitivity (sum_list_with
                    (λ k, length (List.filter (has_key coin k) (kept df)))
                    (ODict.keys (asset_totals (accumulate df)))).
    { unfold ODict.keys. by rewrite sum_list_with_fmap. }
    apply count_by_key.
    + by apply (keyed_NoDup coin); [|apply asset_totals_step].
    + intros row Hrow.
      apply (keyed_keys coin asset_totals eq_refl asset_totals_step).
      by apply list_elem_of_fmap_2.
  - intros b Hb. unfold time_buckets_list in Hbl.
    destruct (buckets_loop_elem_of _ _ _ _ _ _ _ Hbl Hb)
      as (Hk & _ & _ & Hl & _ & Hf).
    rewrite Hf, Hl. unfold bucket_at.
    destruct (ODict.get _ _) as [bk|] eqn:Hget; [|done]. cbn [default]. unfold id.
    apply get_Some_elem_of in Hget.
    pose proof (bucket_self_loops df) as Hall. rewrite Forall_forall in Hall.
    destruct (Hall _ Hget) as [Hloops Hpos]. cbn [snd] in *.
    by rewrite Hloops, bucket_edges_self_loops.
Qed.

Lemma asset_flows_are_self_loops_witness :
  ∃ doc, export_flow_data scenario = Ok doc
    ∧ sum_list_with ae_count (assetFlows doc) = length (kept scenario).
Proof.
  eexists. split; [by vm_compute|].
  apply (asset_flows_are_self_loops scenario). by vm_compute.
Defined.

(** X11. assetStats ranks the assets of assetTotals by total, largest
    first, each asset once.  Its eventCount counts every row of the asset in
    the table, so it is never below the count of the asset's flow, which
    leaves out the rows stopped by the filter. *)
Theorem asset_stats_ranked_by_total (df : list Row) (doc : Document) :
  export_flow_data df = Ok doc →
  (λ s, (asset s, totalNotional s)) <$> assetStats doc
  ≡ₚ asset_totals (accumulate df)
  ∧ StronglySorted (λ s1 s2, fleb (totalNotional s2) (totalNotional s1) = true)
      (assetStats doc)
  ∧ NoDup (asset <$> assetStats doc)
  ∧ (∀ s, s ∈ assetStats doc →
       as_eventCount s = length (List.filter (has_key coin (asset s)) df)
       ∧ ∃ e, e ∈ assetFlows doc
              ∧ ae_source e = asset s
              ∧ ae_notional e = totalNotional s
              ∧ (ae_count e ≤ as_eventCount s)%nat).
Proof.
  intros Hdoc.
  pose proof (export_flow_data_assets _ _ Hdoc) as [Hflows Hstats].
  set (lt := λ y x : string * pyfloat, fltb x.2 y.2).
  set (mk := λ '(a, total),
         {| asset := a; totalNotional := total;
            as_eventCount :=
              length (List.filter (λ row, bool_decide (coin row = a)) df) |}).
  assert (assetStats doc = mk <$> sorted_by lt (asset_totals (accumulate df)))
    as Heq by done.
  assert ((λ s, (asset s, totalNotional s)) <$> assetStats doc
          = sorted_by lt (asset_totals (accumulate df))) as Hback.
  { rewrite Heq, <- list_fmap_compose.
    rewrite <- (list_fmap_id (sorted_by lt _)) at 2.
    apply list_fmap_ext. by intros _ [a total] _. }
  pose proof (keyed_positive coin asset_totals eq_refl asset_totals_step df)
    as Hpos.
  assert (StronglySorted (λ kv1 kv2, fleb kv2.2 kv1.2 = true)
            (sorted_by lt (asset_totals (accumulate df)))) as Hsorted.
  { apply (sorted_by_sorted lt _ (λ kv, positive kv.2 = true)); [| | |done].
    - intros kv1 kv2 _ _. apply fltb_fleb.
    - intros kv1 kv2 H1 H2. by apply not_fltb_fleb.
    - intros kv1 kv2 kv3 H1 H2. by eapply fleb_trans. }
  split_and!.
  - by rewrite Hback, sorted_by_perm.
  - rewrite Heq. clear -Hsorted.
    induction Hsorted as [|[a x] l Hs IH Hx]; [constructor|].
    rewrite fmap_cons. constructor; [done|].
    apply Forall_fmap. eapply Forall_impl; [exact Hx|].
    by intros [b y].
  - assert (asset <$> assetStats doc
            = (sorted_by lt (asset_totals (accumulate df))).*1) as ->.
    { by rewrite <- Hback, <- list_fmap_compose. }
    rewrite sorted_by_perm.
    by apply (keyed_NoDup coin); [|apply asset_totals_step].
  - intros s Hs. rewrite Heq in Hs.
    apply list_elem_of_fmap in Hs as ([a total] & -> & Hin).
    rewrite sorted_by_perm in Hin. cbn [mk asset totalNotional as_eventCount].
    split; [done|].
    exists {| ae_source := a; ae_target := a; ae_notional := total;
              ae_count := edge_count df a |}.
    cbn [ae_source ae_notional ae_count]. split_and!; [|done|done|].
    + rewrite Hflows, asset_flows_self_loops.
      rewrite asset_flows_list_self_loops by done.
      by apply (list_elem_of_fmap_2
                  (λ kv, {| ae_source := kv.1; ae_target := kv.1;
                            ae_notional := kv.2;
                            ae_count := edge_count df kv.1 |}) _ (a, total)).
    + unfold edge_count. clear. induction df as [|row df IH]; [done|].
      cbn [List.filter].
      destruct (bool_decide (coin row = a)), (positive (notional_of row));
        simpl; lia.
Qed.

Lemma asset_stats_ranked_by_total_witness :
  ∃ doc, export_flow_data scenario_with_zero = Ok doc
    ∧ NoDup (asset <$> assetStats doc).
Proof.
  eexists. split; [by vm_compute|].
  apply (asset_stats_ranked_by_total scenario_with_zero). by vm_compute.
Defined.

End asset_edges.

(** ** Flows between accounts *)

Section account_pairs.
Import Flow.

Lemma elem_of_get {V} (d : list (string * V)) k v :
  NoDup (ODict.keys d) → (k, v) ∈ d → ODict.get d k = Some v.
Proof.
  unfold ODict.keys. induction d as [|[k' v'] d IH]; [by intros _ ?%elem_of_nil|].
  rewrite fmap_cons. intros [Hk Hnd]%NoDup_cons [Heq|Hin]%elem_of_cons.
  - injection Heq as -> ->. simpl. by rewrite decide_True.
  - simpl. destruct (decide (k = k')) as [->|Hne]; [|by apply IH].
    destruct Hk. by apply (list_elem_of_fmap_2 fst _ (k', v)).
Qed.

Lemma get_add_to2 (l t l' t' : string) x (d : list (string * list (string * pyfloat))) :
  (targets ← ODict.get (add_to2 l t x d) l'; ODict.get targets t')
  = if bool_decide (l = l') && bool_decide (t = t')
    then Some (fadd (default (Fin 0) (targets ← ODict.get d l'; ODict.get targets t')) x)
    else targets ← ODict.get d l'; ODict.get targets t'.
Proof.
  unfold add_to2. case_bool_decide as Hl; cbn [andb].
  - subst l'. rewrite get_upd_eq. cbn [mbind option_bind]. unfold add_to.
    case_bool_decide as Ht.
    + subst t'. rewrite get_upd_eq. by destruct (ODict.get d l).
    + rewrite get_upd_ne by done. by destruct (ODict.get d l).
  - by rewrite get_upd_ne.
Qed.

Lemma flow_between_step st row l t :
  flow_between (step st row) l t
  = if skipped row then flow_between st l t
    else if is_pair l t row
         then Some (fadd (pair_total st l t) (notional_of row))
         else flow_between st l t.
Proof.
  unfold flow_between, pair_total, flow_between, is_pair, step.
  destruct (skipped row); cbn [account_flows]; [done|].
  apply get_add_to2.
Qed.

Lemma pair_total_sum df l t :
  pair_total (accumulate df) l t
  ≈ fsum (notional_of <$> List.filter (is_pair l t) (kept df)).
Proof.
  induction df as [|row df IH] using rev_ind; [done|].
  rewrite accumulate_snoc, kept_snoc. unfold pair_total at 1.
  rewrite flow_between_step. destruct (skipped row); [done|].
  rewrite List.filter_app. cbn [List.filter].
  destruct (is_pair l t row).
  - cbn [default]. rewrite fmap_app.
    change (notional_of <$> [row]) with [notional_of row].
    by rewrite fsum_snoc, IH.
  - by rewrite app_nil_r.
Qed.

Lemma flow_between_is_Some df l t :
  is_Some (flow_between (accumulate df) l t)
  ↔ ∃ row, row ∈ kept df ∧ liquidated_user row = l ∧ user row = t.
Proof.
  induction df as [|row df IH] using rev_ind.
  - split; [by intros [? ?] | by intros (? & ?%elem_of_nil & _)].
  - rewrite accumulate_snoc, kept_snoc, flow_between_step.
    destruct (skipped row); [done|].
    unfold is_pair. destruct (decide (liquidated_user row = l ∧ user row = t))
      as [[Hl Ht]|Hne].
    + rewrite !bool_decide_eq_true_2 by done. cbn [andb]. split; [|by eauto].
      intros _. exists row. by rewrite elem_of_app, list_elem_of_singleton; auto.
    + assert (bool_decide (liquidated_user row = l) && bool_decide (user row = t)
              = false) as ->.
      { apply andb_false_iff. rewrite !bool_decide_eq_false.
        destruct (decide (liquidated_user row = l)); tauto. }
      rewrite IH. split.
      * intros (r & Hr & H'). exists r. rewrite elem_of_app. auto.
      * intros (r & [Hr | ->%list_elem_of_singleton]%elem_of_app & Hl & Ht);
          [by exists r | tauto].
Qed.

Lemma flow_between_positive df l t x :
  flow_between (accumulate df) l t = Some x → positive x = true.
Proof.
  revert x. induction df as [|row df IH] using rev_ind; [done|]. intros x.
  rewrite accumulate_snoc, flow_between_step.
  destruct (skipped row) eqn:Hs; [by auto|].
  assert (positive (notional_of row) = true) as Hp.
  { rewrite skipped_positive in Hs. by destruct (positive _). }
  destruct (is_pair l t row); [|by auto]. intros [= <-].
  unfold pair_total. destruct (flow_between (accumulate df) l t) as [y|] eqn:Hy.
  - cbn [default]. apply positive_fadd; [|done]. apply positive_nonneg. by apply IH.
  - by apply (positive_fadd (Fin 0)).
Qed.

(** What an account sends to each counterparty adds up to its total. *)
Lemma row_sums df l :
  fsum (ODict.values (default [] (ODict.get (account_flows (accumulate df)) l)))
  ≈ lookup_total (account_totals_out (accumulate df)) l.
Proof.
  induction df as [|row df IH] using rev_ind; [done|].
  rewrite accumulate_snoc. unfold step, lookup_total in *.
  destruct (skipped row); cbn [account_flows account_totals_out]; [done|].
  unfold add_to2. unfold add_to at 2.
  destruct (decide (liquidated_user row = l)) as [<-|Hne].
  - rewrite !get_upd_eq. cbn [default]. unfold id.
    by rewrite fsum_values_add_to, IH.
  - by rewrite !get_upd_ne.
Qed.


Lemma account_flows_NoDup df :
  NoDup (ODict.keys (account_flows (accumulate df)))
  ∧ Forall (λ kv, NoDup (ODict.keys kv.2)) (account_flows (accumulate df)).
Proof.
  induction df as [|row df [IH1 IH2]] using rev_ind.
  - split; constructor.
  - rewrite accumulate_snoc. unfold step.
    destruct (skipped row); cbn [account_flows]; [done|]. unfold add_to2. split.
    + by apply NoDup_keys_upd.
    + apply (Forall_upd (λ ts : list (string * pyfloat), NoDup (ODict.keys ts)));
        [| |done].
      * unfold add_to. apply NoDup_keys_upd. constructor.
      * intros ts Hts. unfold add_to. by apply NoDup_keys_upd.
Qed.

(** Membership in [account_flows], read as a look-up. *)
Lemma elem_of_account_flows df s t x :
  (∃ targets, (s, targets) ∈ account_flows (accumulate df) ∧ (t, x) ∈ targets)
  ↔ flow_between (accumulate df) s t = Some x.
Proof.
  destruct (account_flows_NoDup df) as [Hnd Hall]. rewrite Forall_forall in Hall.
  unfold flow_between. split.
  - intros (targets & Hs & Ht).
    rewrite (elem_of_get _ _ _ Hnd Hs). cbn [mbind option_bind].
    apply elem_of_get; [|done]. apply (Hall _ Hs).
  - destruct (ODict.get _ s) as [targets|] eqn:Hs; [|done].
    cbn [mbind option_bind]. intros Ht. exists targets.
    split; by apply get_Some_elem_of.
Qed.

Lemma account_flows_list_elem_of st e :
  source e ∈ top_accounts_set st → target e ∈ top_accounts_set st →
  positive (notional e) = true →
  (∃ targets, (source e, targets) ∈ account_flows st
              ∧ (target e, notional e) ∈ targets) →
  e ∈ account_flows_list st.
Proof.
  intros Hs Ht Hp (targets & Hin & Hin').
  unfold account_flows_list. rewrite list_elem_of_In, in_flat_map.
  exists (source e, targets). split; [by apply list_elem_of_In|].
  rewrite bool_decide_eq_true_2 by done. rewrite in_flat_map.
  exists (target e, notional e). split; [by apply list_elem_of_In|].
  rewrite bool_decide_eq_true_2 by done. rewrite Hp. destruct e. by left.
Qed.

(** The edges made from one entry of [account_flows]. *)
Lemma inner_edges (keep : string → bool) s (ts : list (string * pyfloat)) :
  NoDup (ODict.keys ts) →
  let out := flat_map (λ '(t, x),
                 if keep t then
                   if positive x
                   then [ {| source := s; target := t; notional := x |} ]
                   else []
                 else []) ts in
  Forall (λ e, source e = s ∧ target e ∈ ODict.keys ts) out
  ∧ NoDup ((λ e, (source e, target e)) <$> out).
Proof.
  simpl. unfold ODict.keys. induction ts as [|[t x] ts IH].
  - intros _. split; constructor.
  - rewrite fmap_cons. intros [Ht Hnd]%NoDup_cons.
    destruct (IH Hnd) as [IH1 IH2]. cbn [flat_map]. split.
    + apply Forall_app. split.
      * destruct (keep t), (positive x); repeat constructor.
      * eapply Forall_impl; [exact IH1|]. intros e [? ?]. split; [done | by right].
    + rewrite fmap_app. apply NoDup_app. split_and!; [|  | done].
      * destruct (keep t), (positive x); repeat constructor.
        by intros ?%elem_of_nil.
      * intros p Hp (e & -> & He)%list_elem_of_fmap.
        rewrite Forall_forall in IH1. destruct (IH1 e He) as [_ Hin].
        assert (target e = t) as Heq.
        { destruct (keep t), (positive x); simpl in Hp;
            try (by apply elem_of_nil in Hp).
          apply list_elem_of_singleton in Hp. by injection Hp. }
        apply Ht. by rewrite <- Heq.
Qed.

Lemma account_flows_list_NoDup df :
  NoDup ((λ e, (source e, target e)) <$> account_flows_list (accumulate df)).
Proof.
  destruct (account_flows_NoDup df) as [Hnd Hall].
  unfold account_flows_list.
  set (top := top_accounts_set (accumulate df)).
  set (keep := λ t : string, bool_decide (t ∈ top)).
  revert Hnd Hall. generalize (account_flows (accumulate df)) as d.
  unfold ODict.keys.
  induction d as [|[s ts] d IH]; [constructor|].
  rewrite fmap_cons. intros [Hs Hnd]%NoDup_cons [Hts Hall]%Forall_cons.
  cbn [flat_map]. rewrite fmap_app. apply NoDup_app. split_and!.
  - destruct (bool_decide (s ∈ top)); [|constructor].
    apply (inner_edges keep s ts Hts).
  - intros p Hp (e & -> & He)%list_elem_of_fmap.
    assert (source e = s) as Hsrc.
    { destruct (bool_decide (s ∈ top)); [|by apply elem_of_nil in Hp].
      apply list_elem_of_fmap in Hp as (e' & Heq & He').
      destruct (inner_edges keep s ts Hts) as [Hin _].
      rewrite Forall_forall in Hin. destruct (Hin e' He') as [<- _].
      by injection Heq. }
    apply Hs. rewrite <- Hsrc.
    apply list_elem_of_In, in_flat_map in He as ([s' ts'] & Hin & He).
    destruct (bool_decide (s' ∈ top)); [|done].
    apply list_elem_of_In in Hin, He.
    assert (NoDup (ODict.keys ts')) as Hts'.
    { rewrite Forall_forall in Hall. apply (Hall _ Hin). }
    destruct (inner_edges keep s' ts' Hts') as [Hin' _].
    rewrite Forall_forall in Hin'. destruct (Hin' e He) as [-> _].
    by apply (list_elem_of_fmap_2 fst _ (s', ts')).
  - by apply IH.
Qed.

Lemma top50_all (totals : list (string * pyfloat)) :
  (length totals ≤ 50)%nat → top50 totals ≡ₚ totals.
Proof.
  intros Hlen. unfold top50. rewrite take_ge; [apply sorted_by_perm|].
  by rewrite sorted_by_perm.
Qed.

(** X13. accountFlows holds exactly the recorded pair flows whose two ends
    are both among the top accounts, each pair once, with the pair's flow as
    notional; so when neither side has more than fifty accounts every
    recorded pair is emitted. *)
Theorem account_flows_are_the_top_pairs (df : list Row) (doc : Document) :
  export_flow_data df = Ok doc →
  let st := accumulate df in
  let top a := a ∈ (liquidated (topAccounts doc)).*1
               ∨ a ∈ (counterparties (topAccounts doc)).*1 in
  (∀ e, e ∈ accountFlows doc
        ↔ top (source e) ∧ top (target e)
          ∧ flow_between st (source e) (target e) = Some (notional e))
  ∧ NoDup ((λ e, (source e, target e)) <$> accountFlows doc)
  ∧ ((length (account_totals_out st) ≤ 50)%nat →
     (length (account_totals_in st) ≤ 50)%nat →
     ∀ l t x, flow_between st l t = Some x →
              {| source := l; target := t; notional := x |} ∈ accountFlows doc).
Proof.
  intros (_ & _ & Hflows & Hout & Hin)%export_flow_data_Ok. simpl in *.
  rewrite Hflows, Hout, Hin.
  assert (∀ e, e ∈ account_flows_list (accumulate df)
               ↔ (source e ∈ (top_liquidated (accumulate df)).*1
                  ∨ source e ∈ (top_counterparties (accumulate df)).*1)
                 ∧ (target e ∈ (top_liquidated (accumulate df)).*1
                    ∨ target e ∈ (top_counterparties (accumulate df)).*1)
                 ∧ flow_between (accumulate df) (source e) (target e)
                   = Some (notional e)) as Hiff.
  { intros e. rewrite <- !elem_of_top_accounts_set. split.
    - intros (Hs & Ht & _ & Hex)%elem_of_account_flows_list.
      by rewrite <- elem_of_account_flows.
    - intros (Hs & Ht & Hf). apply account_flows_list_elem_of; [done|done| |].
      + by eapply flow_between_positive.
      + by apply elem_of_account_flows. }
  split_and!; [done | apply account_flows_list_NoDup |].
  intros Hlo Hli l t x Hx. apply Hiff. cbn [source target notional].
  assert (is_Some (flow_between (accumulate df) l t)) as Hsome by eauto.
  apply flow_between_is_Some in Hsome as (row & Hrow & <- & <-).
  split_and!; [left | right | done].
  - unfold top_liquidated. rewrite (top50_all _ Hlo).
    apply (keyed_keys liquidated_user account_totals_out eq_refl
             account_totals_out_step).
    by apply list_elem_of_fmap_2.
  - unfold top_counterparties. rewrite (top50_all _ Hli).
    apply (keyed_keys user account_totals_in eq_refl account_totals_in_step).
    by apply list_elem_of_fmap_2.
Qed.

Lemma account_flows_are_the_top_pairs_witness :
  ∃ doc, export_flow_data scenario = Ok doc
    ∧ {| source := "U2"; target := "U3"; notional := Fin 200 |} ∈ accountFlows doc.
Proof.
  eexists. split; [by vm_compute|].
  destruct (account_flows_are_the_top_pairs scenario _ eq_refl)
    as (_ & _ & Hall).
  apply Hall; [vm_compute; lia | vm_compute; lia | by vm_compute].
Defined.

End account_pairs.

(** ** Rankings *)

Section rankings.
Import Flow.

Lemma descending_sorted (totals : list (string * pyfloat)) :
  Forall (λ kv, positive kv.2 = true) totals →
  StronglySorted (λ kv1 kv2, fleb kv2.2 kv1.2 = true)
    (sorted_by (λ y x, fltb x.2 y.2) totals).
Proof.
  intros Hpos.
  apply (sorted_by_sorted _ _ (λ kv, positive kv.2 = true)); [| | |done].
  - intros kv1 kv2 _ _. apply fltb_fleb.
  - intros kv1 kv2 H1 H2. by apply not_fltb_fleb.
  - intros kv1 kv2 kv3 H1 H2. by eapply fleb_trans.
Qed.

Lemma top50_ranked (totals : list (string * pyfloat)) :
  Forall (λ kv, positive kv.2 = true) totals → NoDup (ODict.keys totals) →
  StronglySorted (λ kv1 kv2, fleb kv2.2 kv1.2 = true) (top50 totals)
  ∧ NoDup (top50 totals).*1
  ∧ length (top50 totals) = (50 `min` length totals)%nat
  ∧ (∀ kv, kv ∈ top50 totals →
       positive kv.2 = true ∧ lookup_total totals kv.1 = kv.2).
Proof.
  intros Hpos Hnd. unfold top50. split_and!.
  - pose proof (descending_sorted totals Hpos) as Hs.
    rewrite <- (take_drop 50 (sorted_by _ totals)) in Hs.
    by apply StronglySorted_app_1_l in Hs.
  - rewrite fmap_take. eapply sublist_NoDup; [|apply sublist_take].
    by rewrite sorted_by_perm.
  - by rewrite length_take, sorted_by_perm.
  - intros [k v] Hin.
    assert ((k, v) ∈ totals) as Hin'.
    { apply (top50_subseteq totals). by unfold top50. }
    split.
    + rewrite Forall_forall in Hpos. by apply (Hpos (k, v)).
    + unfold lookup_total. cbn [fst snd]. by rewrite (elem_of_get _ _ _ Hnd Hin').
Qed.

(** X14. Each of the two lists of topAccounts is ranked: its totals go
    from the largest down, no account is listed twice, it has fifty entries
    or as many as there are accounts of its side if those are fewer, and the
    total listed for an account is the account's positive total of that
    side. *)
Theorem top_accounts_are_ranked (df : list Row) (doc : Document) :
  export_flow_data df = Ok doc →
  let st := accumulate df in
  let top_out := liquidated (topAccounts doc) in
  let top_in := counterparties (topAccounts doc) in
  StronglySorted (λ kv1 kv2, fleb kv2.2 kv1.2 = true) top_out
  ∧ StronglySorted (λ kv1 kv2, fleb kv2.2 kv1.2 = true) top_in
  ∧ NoDup top_out.*1 ∧ NoDup top_in.*1
  ∧ length top_out = (50 `min` length (account_totals_out st))%nat
  ∧ length top_in = (50 `min` length (account_totals_in st))%nat
  ∧ (∀ kv, kv ∈ top_out →
       positive kv.2 = true ∧ lookup_total (account_totals_out st) kv.1 = kv.2)
  ∧ (∀ kv, kv ∈ top_in →
       positive kv.2 = true ∧ lookup_total (account_totals_in st) kv.1 = kv.2).
Proof.
  intros (_ & _ & _ & Hout & Hin)%export_flow_data_Ok. simpl in *.
  rewrite Hout, Hin. unfold top_liquidated, top_counterparties.
  destruct (totals_positive df) as [Hpo Hpi].
  destruct (top50_ranked _ Hpo
              (keyed_NoDup liquidated_user account_totals_out eq_refl
                 account_totals_out_step df)) as (? & ? & ? & ?).
  destruct (top50_ranked _ Hpi
              (keyed_NoDup user account_totals_in eq_refl
                 account_totals_in_step df)) as (? & ? & ? & ?).
  by split_and!.
Qed.

Lemma top_accounts_are_ranked_witness :
  ∃ doc, export_flow_data mutual = Ok doc
    ∧ length (liquidated (topAccounts doc)) = 2%nat.
Proof.
  eexists. split; [by vm_compute|].
  destruct (top_accounts_are_ranked mutual _ eq_refl)
    as (_ & _ & _ & _ & Hlen & _).
  exact Hlen.
Defined.

Lemma fsum_fadd_pointwise {A} (f : A → pyfloat) (l : list A) :
  fsum ((λ a, fadd (f a) (f a)) <$> l) ≈ fadd (fsum (f <$> l)) (fsum (f <$> l)).
Proof.
  induction l as [|a l IH]; [done|].
  rewrite !fmap_cons, !fsum_cons, IH.
  rewrite !fadd_assoc. apply fadd_proper; [done|].
  rewrite <- !fadd_assoc. apply fadd_proper; [apply fadd_comm | done].
Qed.



End rankings.

(** * Further properties of [export_adl_events_json.py] *)

Section parsing.
Import PyLib Events.
Context (host : Host).

Lemma float_to_ms_Raise x e :
  float_to_ms x = Raise e
  ↔ (x = NaN ∧ e = ValueError) ∨ ((x = PInf ∨ x = NInf) ∧ e = OverflowError).
Proof.
  unfold float_to_ms. destruct x as [q| | |]; cbn [fltb of_int].
  - destruct (negb _); cbn [fscale int_of_float]; split; [done | | done |];
      intros [[? _] | [[?|?] _]]; done.
  - cbn [int_of_float]. split; [intros [= <-]; auto|].
    intros [[? _] | [_ ->]]; done.
  - cbn [fscale int_of_float]. split; [intros [= <-]; auto|].
    intros [[? _] | [_ ->]]; done.
  - cbn [int_of_float]. split; [intros [= <-]; auto|].
    intros [[_ ->] | [[?|?] _]]; done.
Qed.



Lemma side_rule_values row s :
  side_rule host row = Some s → s = "long" ∨ s = "short".
Proof.
  unfold side_rule. destruct (present row "side") as [c|]; [|done].
  destruct (side_long _); [intros [= <-]; auto|].
  destruct (side_short _); [intros [= <-]; auto | done].
Qed.

Lemma direction_rule_values row s :
  direction_rule host row = Some s → s = "long" ∨ s = "short".
Proof.
  unfold direction_rule. destruct (present row "direction") as [c|]; [|done].
  destruct (Str.contains "long" _); [intros [= <-]; auto|].
  destruct (Str.contains "short" _); [intros [= <-]; auto | done].
Qed.

Lemma position_rule_values row :
  (∀ r, position_rule row = Ok r →
        r = Some "long" ∨ r = Some "short" ∨ r = None)
  ∧ (∀ e, position_rule row = Raise e
          ↔ e = TypeError ∧ ∃ s, present row "position_size" = Some (CStr s)).
Proof.
  unfold position_rule.
  destruct (present row "position_size") as [[z|x|s]|]; cbn [cell_gt0 cell_lt0];
    simpl_res.
  - split.
    + intros r. destruct (0 <? z); simpl_res; [intros [= <-]; auto|].
      destruct (z <? 0); intros [= <-]; auto.
    + intros e. destruct (0 <? z); simpl_res;
        (split; [done | by intros [_ [? ?]]]).
  - split.
    + intros r. destruct (fltb (of_int 0) x); simpl_res; [intros [= <-]; auto|].
      destruct (fltb x (of_int 0)); intros [= <-]; auto.
    + intros e. destruct (fltb (of_int 0) x); simpl_res;
        (split; [done | by intros [_ [? ?]]]).
  - split; [done|]. intros e. split; [intros [= <-]; eauto | by intros [-> _]].
  - split; [intros r [= <-]; auto|]. intros e. split; [done | by intros [_ [? ?]]].
Qed.

Lemma determine_side_Ok row s :
  determine_side host row = Ok s → s = "long" ∨ s = "short".
Proof.
  unfold determine_side.
  destruct (side_rule host row) as [s'|] eqn:Hs.
  { intros [= <-]. by eapply side_rule_values. }
  destruct (direction_rule host row) as [s'|] eqn:Hd.
  { intros [= <-]. by eapply direction_rule_values. }
  destruct (position_rule_values row) as [Hok _].
  destruct (position_rule row) as [r|e']; simpl_res; [|done].
  intros [= <-]. destruct (Hok r eq_refl) as [-> | [-> | ->]]; auto.
Qed.

Lemma determine_side_Raise row e :
  determine_side host row = Raise e
  ↔ e = TypeError
    ∧ side_rule host row = None ∧ direction_rule host row = None
    ∧ ∃ s, present row "position_size" = Some (CStr s).
Proof.
  unfold determine_side.
  destruct (side_rule host row) as [s|] eqn:Hs.
  { split; [done | by intros (_ & ? & _)]. }
  destruct (direction_rule host row) as [s|] eqn:Hd.
  { split; [done | by intros (_ & _ & ? & _)]. }
  destruct (position_rule_values row) as [_ Hraise].
  destruct (position_rule row) as [r|e'] eqn:Hp; simpl_res.
  - split; [done|]. intros (-> & _ & _ & Hstr).
    assert (Ok r = Raise TypeError) as H; [|done].
    by apply Hraise.
  - destruct (Hraise e') as [[-> Hstr] _]; [done|].
    split; [by intros [= <-] | by intros [-> _]].
Qed.

(** X18. [determine_side] answers long or short and nothing else, or it
    raises TypeError; it raises exactly when neither the side nor the
    direction column decides and position_size holds a string, which line 65
    compares with 0. *)
Theorem determine_side_outcomes (row : Series) :
  (determine_side host row = Ok "long"
   ∨ determine_side host row = Ok "short"
   ∨ determine_side host row = Raise TypeError)
  ∧ (∀ e, determine_side host row = Raise e
          ↔ e = TypeError
            ∧ side_rule host row = None ∧ direction_rule host row = None
            ∧ ∃ s, present row "position_size" = Some (CStr s)).
Proof.
  split; [|apply determine_side_Raise].
  destruct (determine_side host row) as [s|e] eqn:Hside.
  - destruct (determine_side_Ok _ _ Hside) as [-> | ->]; auto.
  - apply determine_side_Raise in Hside as (-> & _). auto.
Qed.

End parsing.

Section event_list.
Import PyLib Events.
Context (host : Host).

Lemma or_else_nonempty x (dflt : string) :
  dflt ≠ EmptyString → or_else x dflt ≠ EmptyString.
Proof.
  intros Hd. unfold or_else. destruct x as [s|]; [|done].
  by case_bool_decide.
Qed.

(** What a row that yields an event puts into it. *)
Lemma process_row_event row e :
  process_row host row = Ok (Some e) →
  row_timestamp host row = Ok (Some (timestamp e))
  ∧ row_notional row = Ok (Some (notionalUsd e))
  ∧ fleb (notionalUsd e) (of_int 0) = false
  ∧ determine_side host row = Ok (side e)
  ∧ (∃ iso, local_isoformat host (timestamp e) = Ok iso
            ∧ timestampISO e = String.append iso "Z")
  ∧ asset e
    = or_else (to_str host <$> first_present row ["coin"; "asset"; "ticker"; "symbol"])
        "UNKNOWN"
  ∧ liquidatedUserId e
    = or_else (to_str host <$> present row "liquidated_user") EmptyString
  ∧ targetUserId e = or_else (to_str host <$> present row "user") EmptyString
  ∧ batchId e = str_int (timestamp e ÷ 1000)
  ∧ optional_float row "account_value_realtime" = Ok (equityBefore e)
  ∧ optional_float row "total_equity" = Ok (equityAfter e)
  ∧ optional_float row "leverage_realtime" = Ok (leverage e)
  ∧ optional_float row "closed_pnl" = Ok (realizedPnl e)
  ∧ optional_float row "position_unrealized_pnl" = Ok (unrealizedPnl e).
Proof.
  unfold process_row. simpl_res.
  destruct (row_timestamp host row) as [[ts|]|]; simpl_res; try done.
  destruct (row_notional row) as [[x|]|]; cbn [mbind res_bind bind notional_rejected]; try done.
  destruct (fleb x (of_int 0)) eqn:Hx; [done|].
  unfold make_event. simpl_res.
  destruct (determine_side host row); simpl_res; [|done].
  destruct (local_isoformat host ts) as [iso|] eqn:Hiso; simpl_res; [|done].
  destruct (optional_float row "account_value_realtime");
    simpl_res; [|done].
  destruct (optional_float row "total_equity");
    simpl_res; [|done].
  destruct (optional_float row "leverage_realtime");
    simpl_res; [|done].
  destruct (optional_float row "closed_pnl");
    simpl_res; [|done].
  destruct (optional_float row "position_unrealized_pnl");
    simpl_res; [|done].
  intros [= <-]. cbn [timestamp notionalUsd side timestampISO asset
    liquidatedUserId targetUserId batchId equityBefore equityAfter leverage
    realizedPnl unrealizedPnl].
  split_and!; try done. by exists iso.
Qed.

Lemma events_from_rows df evs e :
  events host df = Ok evs → e ∈ evs →
  ∃ row, row ∈ df ∧ process_row host row = Ok (Some e).
Proof.
  intros (outs & Hrows & Hperm & _)%events_spec He.
  rewrite Hperm in He. apply list_elem_of_omap in He as (o & Ho & Hid).
  destruct o as [e'|]; [|done]. injection Hid as ->.
  apply list_elem_of_lookup in Ho as (i & Hi).
  destruct (Forall2_lookup_r _ _ _ _ _ Hrows Hi) as (row & Hrow & Hproc).
  exists row. split; [by eapply list_elem_of_lookup_2 | done].
Qed.

(** X19. Every event of the dumped list comes from a row of the table and
    is well formed: its side is long or short, its asset is never empty
    (UNKNOWN stands in), its notional is not [<= 0] (it is positive, or the
    NaN that [float] reads from text), its batchId is the decimal text of
    its second, and its timestampISO is the host's local time followed by
    the letter Z. *)
Theorem emitted_events_are_well_formed (df : list Series) (evs : list Event) :
  events host df = Ok evs →
  ∀ e, e ∈ evs →
    (side e = "long" ∨ side e = "short")
    ∧ asset e ≠ EmptyString
    ∧ (fltb (of_int 0) (notionalUsd e) = true ∨ notionalUsd e = NaN)
    ∧ batchId e = str_int (timestamp e ÷ 1000)
    ∧ (∃ iso, local_isoformat host (timestamp e) = Ok iso
              ∧ timestampISO e = String.append iso "Z")
    ∧ ∃ row, row ∈ df
             ∧ row_timestamp host row = Ok (Some (timestamp e))
             ∧ row_notional row = Ok (Some (notionalUsd e))
             ∧ determine_side host row = Ok (side e).
Proof.
  intros Hevs e He.
  destruct (events_from_rows _ _ _ Hevs He) as (row & Hrow & Hproc).
  apply process_row_event in Hproc
    as (Hts & Hn & Hx & Hside & Hiso & Hasset & _ & _ & Hbatch & _).
  split_and!.
  - by apply (determine_side_Ok host row).
  - rewrite Hasset. by apply or_else_nonempty.
  - destruct (notionalUsd e) as [q| | |]; cbn [fleb fltb of_int] in *; auto.
    left. by rewrite Hx.
  - done.
  - done.
  - by exists row.
Qed.

Lemma StronglySorted_last (l : list Event) e x :
  StronglySorted (λ a b, timestamp a ≤ timestamp b) l →
  e ∈ l → last l = Some x → timestamp e ≤ timestamp x.
Proof.
  intros Hs (i & Hi)%list_elem_of_lookup Hlast. rewrite last_lookup in Hlast.
  pose proof (lookup_lt_Some _ _ _ Hi) as Hlt.
  destruct (decide (i = pred (length l))) as [->|Hne].
  - rewrite Hi in Hlast. by injection Hlast as ->.
  - apply (StronglySorted_lookup_lt _ l i (pred (length l)) e x Hs); [lia|done|done].
Qed.

Lemma StronglySorted_head (l : list Event) e x :
  StronglySorted (λ a b, timestamp a ≤ timestamp b) l →
  e ∈ l → head l = Some x → timestamp x ≤ timestamp e.
Proof.
  intros Hs He Hhead. destruct l as [|y l]; [done|]. injection Hhead as ->.
  apply StronglySorted_cons in Hs as [Hall _].
  apply elem_of_cons in He as [->|He]; [done|].
  rewrite Forall_forall in Hall. by apply Hall.
Qed.

(** X20. The dumped document.  Its events are in ascending order of
    timestamp and no more than the rows of the table; eventCount is their
    number; the time range starts at the earliest and ends at the latest
    timestamp of the events; the two unique counts are at most eventCount;
    and without events every statistic is the literal zero. *)
Theorem events_document_statistics (df : list Series) (doc : Document) :
  export_events host df = Ok doc →
  let md := metadata doc in
  StronglySorted (λ a b, timestamp a ≤ timestamp b) (doc_events doc)
  ∧ Meta.eventCount md = length (doc_events doc)
  ∧ (Meta.eventCount md ≤ length df)%nat
  ∧ (∀ e, e ∈ doc_events doc → Meta.start md ≤ timestamp e ≤ Meta.end_ md)
  ∧ (doc_events doc ≠ [] →
     (∃ e, e ∈ doc_events doc ∧ timestamp e = Meta.start md)
     ∧ (∃ e, e ∈ doc_events doc ∧ timestamp e = Meta.end_ md)
     ∧ Meta.totalNotionalUsd md = fsum (notionalUsd <$> doc_events doc)
     ∧ (1 ≤ Meta.uniqueAssets md)%nat)
  ∧ (Meta.uniqueAssets md ≤ Meta.eventCount md)%nat
  ∧ (Meta.uniqueAccounts md ≤ Meta.eventCount md)%nat
  ∧ (doc_events doc = [] →
     md = {| Meta.eventCount := 0; Meta.start := 0; Meta.end_ := 0;
             Meta.totalNotionalUsd := of_int 0;
             Meta.uniqueAssets := 0; Meta.uniqueAccounts := 0 |}).
Proof.
  unfold export_events.
  destruct (events host df) as [evs|] eqn:Hevs; simpl_res; [|done].
  intros [= <-]. cbn [metadata doc_events document].
  destruct (events_spec _ _ _ Hevs) as (outs & Hrows & Hperm & Hsorted & _).
  cbn [Meta.eventCount Meta.start Meta.end_ Meta.totalNotionalUsd
       Meta.uniqueAssets Meta.uniqueAccounts].
  split_and!.
  - done.
  - done.
  - rewrite Hperm. rewrite (Forall2_length _ _ _ Hrows).
    clear. induction outs as [|[e|] outs IH]; [done| |];
      change (omap id (?o :: outs))
        with (match o with Some e => e :: omap id outs | None => omap id outs end);
      cbn [length]; lia.
  - intros e He. split.
    + destruct evs as [|x evs']; [by apply elem_of_nil in He|].
      by apply (StronglySorted_head (x :: evs') e x).
    + destruct (last evs) as [x|] eqn:Hlast.
      * by apply (StronglySorted_last evs e x).
      * apply last_None in Hlast. subst evs. by apply elem_of_nil in He.
  - intros Hne. destruct evs as [|x evs'] eqn:Heq; [done|]. rewrite <- Heq.
    split_and!.
    + exists x. split; [rewrite Heq; left | done].
    + destruct (last evs) as [y|] eqn:Hlast.
      * exists y. split; [|done]. rewrite last_lookup in Hlast.
        by eapply list_elem_of_lookup_2.
      * apply last_None in Hlast. by rewrite Heq in Hlast.
    + by rewrite Heq.
    + rewrite Heq, fmap_cons. cbn [list_to_set].
      rewrite size_union_alt, size_singleton. lia.
  - destruct evs as [|x evs'] eqn:Heq; [done|]. rewrite <- Heq.
    etrans; [apply size_list_to_set_le|]. by rewrite length_fmap.
  - destruct evs as [|x evs'] eqn:Heq; [done|]. rewrite <- Heq.
    etrans; [apply size_list_to_set_le|].
    etrans; [apply List.filter_length_le|]. by rewrite length_fmap.
  - by intros ->.
Qed.

End event_list.

Lemma emitted_events_are_well_formed_witness :
  ∃ evs, Events.events PyLib.sample_host Events.sample = Py.Ok evs
    ∧ ∀ e, e ∈ evs → Events.asset e ≠ EmptyString.
Proof.
  eexists. split; [by vm_compute|]. intros e He.
  by destruct (emitted_events_are_well_formed PyLib.sample_host
                 Events.sample _ eq_refl e He) as (_ & ? & _).
Defined.

Lemma events_document_statistics_witness :
  ∃ doc, Events.export_events PyLib.sample_host Events.sample = Py.Ok doc
    ∧ Events.Meta.eventCount (Events.metadata doc) = 3%nat.
Proof.
  eexists. split; [by vm_compute|].
  destruct (events_document_statistics PyLib.sample_host Events.sample _ eq_refl)
    as (_ & Hcount & _).
  exact Hcount.
Defined.

Section columns.
Import PyLib Events.
Context (host : Host).

Lemma present_lookup (row : Series) col c :
  present row col = Some c → row !! col = Some c.
Proof.
  unfold present. destruct (row !! col) as [c'|]; [|done].
  by destruct (notna c'); [intros [= ->]|].
Qed.

Lemma first_present_None row cols :
  (∀ col, col ∈ cols → present row col = None) → first_present row cols = None.
Proof.
  induction cols as [|col cols IH]; [done|]. intros Hall. cbn [first_present].
  rewrite (Hall col) by left. apply IH. intros col' Hin. apply Hall. by right.
Qed.

Lemma first_present_lookup row cols i col c :
  cols !! i = Some col → present row col = Some c →
  (∀ j col', (j < i)%nat → cols !! j = Some col' → present row col' = None) →
  first_present row cols = Some c.
Proof.
  revert i. induction cols as [|col0 cols IH]; intros i; [done|].
  destruct i as [|i]; cbn [first_present].
  - intros [= ->] -> _. done.
  - intros Hi Hc Hbefore. rewrite (Hbefore 0%nat col0) by (done || lia).
    apply (IH i); [done | done |].
    intros j col' Hj Hcol'. apply (Hbefore (S j)); [lia | done].
Qed.

Lemma first_present_elem_of row cols c :
  first_present row cols = Some c → ∃ col, col ∈ cols ∧ present row col = Some c.
Proof.
  induction cols as [|col cols IH]; [done|]. cbn [first_present].
  destruct (present row col) as [c'|] eqn:Hc.
  - intros [= ->]. exists col. split; [left | done].
  - intros (col' & Hin & Hc')%IH. exists col'. split; [by right | done].
Qed.

(** X21. The asset of an event is the text of the first of the columns
    coin, asset, ticker and symbol that holds a value, a missing value (NaN)
    being passed over, and UNKNOWN when none does or when that text is
    empty; the two account fields are the texts of liquidated_user and user,
    and empty where those are missing. *)
Theorem event_asset_is_first_column_with_value (row : Series) (e : Event) :
  process_row host row = Ok (Some e) →
  ((∀ col, col ∈ asset_columns → present row col = None) → asset e = "UNKNOWN")
  ∧ (∀ i col c,
       asset_columns !! i = Some col → present row col = Some c →
       (∀ j col', (j < i)%nat → asset_columns !! j = Some col' →
                  present row col' = None) →
       asset e = if bool_decide (to_str host c = EmptyString) then "UNKNOWN"
                 else to_str host c)
  ∧ liquidatedUserId e
    = default EmptyString (to_str host <$> present row "liquidated_user")
  ∧ targetUserId e = default EmptyString (to_str host <$> present row "user").
Proof.
  intros (_ & _ & _ & _ & _ & Hasset & Hl & Ht & _)%process_row_event.
  fold asset_columns in Hasset. split_and!.
  - intros Hnone. by rewrite Hasset, first_present_None.
  - intros i col c Hi Hc Hbefore.
    by rewrite Hasset, (first_present_lookup _ _ i col c).
  - rewrite Hl. destruct (present row "liquidated_user") as [c|]; [|done].
    cbn [fmap option_fmap option_map or_else default]. by case_bool_decide.
  - rewrite Ht. destruct (present row "user") as [c|]; [|done].
    cbn [fmap option_fmap option_map or_else default]. by case_bool_decide.
Qed.

Lemma float_to_ms_Fin q : ∃ ms, float_to_ms (Fin q) = Ok ms.
Proof.
  unfold float_to_ms. destruct (fltb _ _); cbn [fscale int_of_float]; eauto.
Qed.

Lemma clean_row_process row :
  clean_row host row = true → ∃ o, process_row host row = Ok o.
Proof.
  unfold clean_row. rewrite !andb_true_iff.
  intros (((Htime & Hnum) & Hpos) & Hiso).
  rewrite forallb_forall in Hnum.
  assert (∀ col c, col ∈ float_columns → present row col = Some c →
                   ∃ f, to_float c = Ok f) as Hfloat.
  { intros col c Hcol Hc%present_lookup.
    apply list_elem_of_In, Hnum in Hcol. rewrite Hc in Hcol.
    destruct c as [z|x|s]; cbn [to_float numeric] in *; eauto.
    destruct (float_of_string s); [eauto | done]. }
  assert (∀ col, col ∈ float_columns → ∃ o, optional_float row col = Ok o)
    as Hopt.
  { intros col Hcol. unfold optional_float.
    destruct (present row col) as [c|] eqn:Hc; [|eauto].
    destruct (Hfloat _ _ Hcol Hc) as [f ->]. simpl_res. eauto. }
  assert (∃ ots, row_timestamp host row = Ok ots) as [ots Hts].
  { unfold row_timestamp.
    destruct (row !! "time") as [[n|x|s]|]; cbn [parse_timestamp]; eauto.
    - destruct x as [q| | |]; try done.
      destruct (float_to_ms_Fin q) as [ms ->]. simpl_res. eauto.
    - destruct (iso_to_ms host s); [eauto|].
      destruct (numeric_string_to_ms s); eauto. }
  unfold process_row. rewrite Hts in *. simpl_res.
  destruct ots as [ts|]; [|eauto].
  assert (∃ n, row_notional row = Ok n) as [n ->].
  { unfold row_notional. fold notional_columns.
    destruct (first_present row notional_columns) as [c|] eqn:Hc; [|eauto].
    apply first_present_elem_of in Hc as (col & Hcol & Hc).
    destruct (Hfloat col c) as [f ->]; [|done|simpl_res; eauto].
    unfold float_columns. apply elem_of_app. by left. }
  simpl_res. destruct (notional_rejected n); [eauto|].
  destruct n as [x|]; [|eauto].
  unfold make_event.
  destruct (determine_side host row) as [sd|e] eqn:Hside; simpl_res.
  2:{ apply determine_side_Raise in Hside as (_ & _ & _ & s & Hs%present_lookup).
      by rewrite Hs in Hpos. }
  destruct (local_isoformat host ts) as [iso|]; [|done]. simpl_res.
  destruct (Hopt "account_value_realtime") as [? ->];
    [apply elem_of_app; right; rewrite !elem_of_cons; auto 10|]. simpl_res.
  destruct (Hopt "total_equity") as [? ->];
    [apply elem_of_app; right; rewrite !elem_of_cons; auto 10|]. simpl_res.
  destruct (Hopt "leverage_realtime") as [? ->];
    [apply elem_of_app; right; rewrite !elem_of_cons; auto 10|]. simpl_res.
  destruct (Hopt "closed_pnl") as [? ->];
    [apply elem_of_app; right; rewrite !elem_of_cons; auto 10|]. simpl_res.
  destruct (Hopt "position_unrealized_pnl") as [? ->];
    [apply elem_of_app; right; rewrite !elem_of_cons; auto 10|]. simpl_res.
  eauto.
Qed.

Lemma export_events_raises df1 row df2 e :
  process_row host row = Raise e →
  ∃ e', export_events host (df1 ++ row :: df2) = Raise e'.
Proof.
  intros Hrow. unfold export_events, events.
  destruct (collect_raises host df1 row df2 e Hrow) as [e' ->]. by exists e'.
Qed.


End columns.

Lemma event_asset_is_first_column_with_value_witness :
  ∃ e, Events.process_row PyLib.sample_host
         {[ "time" := Events.CInt 1696900000500;
            "coin" := Events.CFloat NaN; "ticker" := Events.CStr "BTC";
            "adl_notional" := Events.CFloat (Fin 100) ]} = Py.Ok (Some e)
       ∧ Events.asset e = "BTC".
Proof.
  match goal with |- ∃ e, ?p = _ ∧ _ => destruct p as [[e|]|] eqn:He end;
    [|by vm_compute in He|by vm_compute in He].
  exists e. split; [done|].
  destruct (event_asset_is_first_column_with_value PyLib.sample_host _ e He)
    as (_ & Hfirst & _).
  rewrite (Hfirst 2%nat "ticker" (Events.CStr "BTC"));
    [done | done | by vm_compute |].
  intros j col' Hj Hcol. destruct j as [|[|j]]; [| |lia];
    vm_compute in Hcol; injection Hcol as <-; by vm_compute.
Defined.

